(** * WebCrawler: the rate limiter, the privacy filter, the record store and
      the crawl orchestrator of [crawler.py], and the entry point of [main.py].

    Conventions of the embedding.
    - A [datetime] is the number of microseconds it denotes, a [Z]; a
      [timedelta] is a [Z] too, so [now - timedelta(minutes=1)] is an exact
      subtraction, as it is in Python.
    - A [str] is a [string] whose characters are the code points U+0000 to
      U+00FF.
    - Python exceptions are values of [Exn]; a call that can raise returns an
      [Outcome], which carries the world as it is when the call ends. *)

From Stdlib Require Import ZArith List Lia Bool Ascii String.
From stdpp Require Import base option list gmap strings.
Import ListNotations.

(** ** The clock: [datetime.now()] and [time.sleep] *)

Module Time.
Local Open Scope Z_scope.

(** [reading] is what [datetime.now()] returns. A [time.sleep(d)] suspends
    the caller for [d] and for as long again as the scheduler adds: [lags]
    holds these overshoots, one for each coming sleep, none meaning zero.
    [sleeps] logs the argument of every [time.sleep] so far. *)
Record Clock : Type := mkClock {
  reading : Z;
  lags : list N;
  sleeps : list Z
}.

Definition datetime_now (c : Clock) : Z := reading c.

Definition time_sleep (d : Z) (c : Clock) : Clock :=
  mkClock (reading c + d + Z.of_N (hd 0%N (lags c))) (tl (lags c)) (sleeps c ++ [d]).

(** [width] decimal digits of [n], zero-padded: the [%0*d] of the format. *)
Fixpoint digits (width : nat) (n : Z) (tail : string) : string :=
  match width with
  | O => tail
  | S width' =>
      digits width' (n / 10) (String (ascii_of_nat (48 + Z.to_nat (n mod 10))) tail)
  end.

(** [datetime.isoformat()], of a datetime given as the microseconds since
    0001-01-01T00:00:00: [YYYY-MM-DDTHH:MM:SS], then [.ffffff] unless the
    microsecond field is zero. The date is that of the proleptic Gregorian
    calendar. *)
Definition isoformat (t : Z) : string :=
  let us := t mod 1000000 in
  let secs := t / 1000000 in
  let days := secs / 86400 in
  let sod := secs mod 86400 in
  let z := days + 306 in
  let era := z / 146097 in
  let doe := z mod 146097 in
  let yoe := (doe - doe / 1460 + doe / 36524 - doe / 146096) / 365 in
  let doy := doe - (365 * yoe + yoe / 4 - yoe / 100) in
  let mp := (5 * doy + 2) / 153 in
  let d := doy - (153 * mp + 2) / 5 + 1 in
  let m := if mp <? 10 then mp + 3 else mp - 9 in
  let y := yoe + era * 400 + (if m <=? 2 then 1 else 0) in
  digits 4 y (String "-" (digits 2 m (String "-" (digits 2 d (String "T"
    (digits 2 (sod / 3600) (String ":" (digits 2 (sod / 60 mod 60) (String ":"
      (digits 2 (sod mod 60)
        (if us =? 0 then EmptyString else String "." (digits 6 us EmptyString)))))))))))).

End Time.

(** ** RateLimiter (crawler.py, lines 10-41), one caller at a time *)

Module RateLimiter.
Local Open Scope Z_scope.

(** [timedelta(minutes=1)] and [timedelta(seconds=1)], in microseconds. *)
Definition minute : Z := 60000000.
Definition second : Z := 1000000.

(** The instance attributes set by [__init__]; [requests] is the deque,
    oldest entry first. The lock is modelled in [Concurrent] below. *)
Record t : Type := mk {
  requests_per_minute : Z;
  burst_limit : Z;
  requests : list Z
}.

(** [RateLimiter(requests_per_minute, burst_limit)]; the defaults of the
    signature are 60 and 10. *)
Definition init (rpm burst : Z) : t := mk rpm burst [].

(** [while self.requests and self.requests[0] < minute_ago: popleft()]. *)
Fixpoint popleft_stale (minute_ago : Z) (q : list Z) : list Z :=
  match q with
  | [] => []
  | r :: q' => if r <? minute_ago then popleft_stale minute_ago q' else q
  end.

(** [sum(1 for req in self.requests if req > last_second)]. *)
Definition recent_requests (last_second : Z) (q : list Z) : Z :=
  Z.of_nat (length (List.filter (fun req => last_second <? req) q)).

(** [can_make_request], given the value [datetime.now()] returned: the
    answer and the limiter afterwards. *)
Definition can_make_request (now : Z) (self : t) : bool * t :=
  let minute_ago := now - minute in
  let q := popleft_stale minute_ago (requests self) in
  if Z.of_nat (length q) >=? requests_per_minute self then
    (false, mk (requests_per_minute self) (burst_limit self) q)
  else
    let last_second := now - second in
    if recent_requests last_second q >=? burst_limit self then
      (false, mk (requests_per_minute self) (burst_limit self) q)
    else
      (true, mk (requests_per_minute self) (burst_limit self) (q ++ [now])).

(** [time.sleep(0.1)]: a tenth of a second, in microseconds. *)
Definition retry_interval : Z := 100000.

(** [wait_if_needed]: [while not self.can_make_request(): time.sleep(0.1)].
    The loop has no bound of its own; [fuel] bounds the attempts of the
    model, and [None] says that all of them were rejected. *)
Fixpoint wait_if_needed (fuel : nat) (self : t) (c : Time.Clock) : option (t * Time.Clock) :=
  match fuel with
  | O => None
  | S fuel' =>
      let '(ok, self') := can_make_request (Time.datetime_now c) self in
      if ok then Some (self', c)
      else wait_if_needed fuel' self' (Time.time_sleep retry_interval c)
  end.

(** A sequence of calls, the k-th made when the clock reads the k-th element
    of [ticks]: the log of (time, answer) pairs and the final limiter. *)
Fixpoint calls (self : t) (ticks : list Z) : list (Z * bool) * t :=
  match ticks with
  | [] => ([], self)
  | now :: rest =>
      let '(ok, self') := can_make_request now self in
      let '(log, final) := calls self' rest in
      ((now, ok) :: log, final)
  end.

(** The timestamps of the accepted calls of a log, in call order. *)
Definition accepted (log : list (Z * bool)) : list Z :=
  map fst (List.filter snd log).

(** How many timestamps of [l] satisfy [p]. *)
Definition count (p : Z -> bool) (l : list Z) : Z :=
  Z.of_nat (length (List.filter p l)).

(** The trailing windows that end at [now]. The 60-second window is closed at
    its old end, since a timestamp equal to [minute_ago] is not evicted; the
    1-second window is open there, since the burst check counts
    [req > last_second]. *)
Definition in_minute_window (now ts : Z) : bool :=
  (now - minute <=? ts) && (ts <=? now).
Definition in_second_window (now ts : Z) : bool :=
  (now - second <? ts) && (ts <=? now).

(** A clock that never runs backwards. *)
Fixpoint monotonic (ticks : list Z) : Prop :=
  match ticks with
  | [] => True
  | t0 :: rest => Forall (fun t1 => t0 <= t1) rest /\ monotonic rest
  end.

(** The state of the limiter after a call made at time [c], against the
    timestamps [acc] of every call accepted so far: the deque holds the
    accepted timestamps less the evicted ones, which are out of every window
    that ends at [c] or later; both caps hold of the deque. *)
Record caps_inv (c : Z) (self : t) (acc : list Z) : Prop := {
  inv_split : exists dropped,
      acc = dropped ++ requests self /\ Forall (fun r => r < c - minute) dropped;
  inv_past : Forall (fun r => r <= c) (requests self);
  inv_minute : Z.of_nat (length (requests self)) <= requests_per_minute self;
  inv_burst : count (in_second_window c) (requests self) <= burst_limit self
}.

End RateLimiter.

(** ** RateLimiter under concurrent callers *)

Module Concurrent.
Local Open Scope Z_scope.

(** Where a caller is in [can_make_request]. *)
Inductive pc : Type :=
| AtEntry                   (* about to run line 18 *)
| HasNow (now : Z)          (* lines 18-19 done, about to take the lock of line 21 *)
| Evicting (now : Z)        (* holds the lock, in the loop of lines 23-24 *)
| CheckingMinute (now : Z)  (* holds the lock, at line 27 *)
| CheckingBurst (now : Z)   (* holds the lock, at lines 31-33 *)
| Appending (now : Z)       (* holds the lock, at line 36 *)
| Returned (answer : bool). (* out of the [with] block, the lock released *)

Definition in_critical_section (p : pc) : bool :=
  match p with
  | Evicting _ | CheckingMinute _ | CheckingBurst _ | Appending _ => true
  | AtEntry | HasNow _ | Returned _ => false
  end.

(** [wall]: what [datetime.now()] returns; [shared]: the one limiter;
    [holder]: the caller that holds [self.lock]; [callers]: every caller. *)
Record state : Type := mkState {
  wall : Z;
  shared : RateLimiter.t;
  holder : option nat;
  callers : list pc
}.

(** [count] callers at the entry of [can_make_request] on a new limiter. *)
Definition init (rpm burst : Z) (count : nat) : state :=
  mkState 0 (RateLimiter.init rpm burst) None (repeat AtEntry count).

Definition set_requests (q : list Z) (l : RateLimiter.t) : RateLimiter.t :=
  RateLimiter.mk (RateLimiter.requests_per_minute l) (RateLimiter.burst_limit l) q.

(** Caller [i] goes on to [p]; the deque becomes [q]; the lock is kept. *)
Definition goes (i : nat) (p : pc) (q : list Z) (s : state) : state :=
  mkState (wall s) (set_requests q (shared s)) (holder s) (<[i := p]> (callers s)).

(** Caller [i] leaves the [with] block with [answer]; the deque becomes [q]. *)
Definition leaves (i : nat) (answer : bool) (q : list Z) (s : state) : state :=
  mkState (wall s) (set_requests q (shared s)) None (<[i := Returned answer]> (callers s)).

(** The next step of caller [i], if it has one: a caller that wants the
    lock has none while another holds it. *)
Definition fire (i : nat) (s : state) : option state :=
  let q := RateLimiter.requests (shared s) in
  match callers s !! i with
  | None => None
  | Some AtEntry => Some (goes i (HasNow (wall s)) q s)
  | Some (HasNow now) =>
      match holder s with
      | None => Some (mkState (wall s) (shared s) (Some i) (<[i := Evicting now]> (callers s)))
      | Some _ => None
      end
  | Some (Evicting now) =>
      match q with
      | r :: q' =>
          if r <? now - RateLimiter.minute then Some (goes i (Evicting now) q' s)
          else Some (goes i (CheckingMinute now) q s)
      | [] => Some (goes i (CheckingMinute now) q s)
      end
  | Some (CheckingMinute now) =>
      if Z.of_nat (length q) >=? RateLimiter.requests_per_minute (shared s)
      then Some (leaves i false q s)
      else Some (goes i (CheckingBurst now) q s)
  | Some (CheckingBurst now) =>
      if RateLimiter.recent_requests (now - RateLimiter.second) q
           >=? RateLimiter.burst_limit (shared s)
      then Some (leaves i false q s)
      else Some (goes i (Appending now) q s)
  | Some (Appending now) => Some (leaves i true (q ++ [now]) s)
  | Some (Returned _) => None
  end.

(** What a scheduler can do: let time pass, or let a caller take a step. *)
Inductive action : Type :=
| Tick (d : N)
| Run (i : nat).

Definition act (a : action) (s : state) : option state :=
  match a with
  | Tick d => Some (mkState (wall s + Z.of_N d) (shared s) (holder s) (callers s))
  | Run i => fire i s
  end.

Fixpoint run (schedule : list action) (s : state) : option state :=
  match schedule with
  | [] => Some s
  | a :: rest =>
      match act a s with
      | Some s' => run rest s'
      | None => None
      end
  end.

Definition reachable (s0 s : state) : Prop :=
  exists schedule, run schedule s0 = Some s.

(** The five steps as the spec words them, all in one critical section: a
    caller computes [now], evicts, checks both caps and records in a single
    step that no other caller can interleave with. *)
Definition atomic_fire (i : nat) (s : state) : option state :=
  match callers s !! i with
  | Some AtEntry =>
      let '(answer, l) := RateLimiter.can_make_request (wall s) (shared s) in
      Some (mkState (wall s) l None (<[i := Returned answer]> (callers s)))
  | _ => None
  end.

Definition atomic_act (a : action) (s : state) : option state :=
  match a with
  | Tick d => Some (mkState (wall s + Z.of_N d) (shared s) (holder s) (callers s))
  | Run i => atomic_fire i s
  end.

Fixpoint atomic_run (schedule : list action) (s : state) : option state :=
  match schedule with
  | [] => Some s
  | a :: rest =>
      match atomic_act a s with
      | Some s' => atomic_run rest s'
      | None => None
      end
  end.

Definition atomic_reachable (s0 s : state) : Prop :=
  exists schedule, atomic_run schedule s0 = Some s.

(** Two callers: the first computes [now], then the second runs all of
    [can_make_request] five microseconds later, then the first goes on. *)
Definition overtaking : list action :=
  [Run 0%nat; Tick 5; Run 1%nat; Run 1%nat; Run 1%nat; Run 1%nat; Run 1%nat; Run 1%nat;
   Run 0%nat; Run 0%nat; Run 0%nat; Run 0%nat; Run 0%nat].

Definition overtaken : state :=
  mkState 5 (RateLimiter.mk 60 10 [5; 0]) None [Returned true; Returned true].

(** What holds of every state that callers can reach, whatever the
    interleaving: only the holder of the lock is between lines 23 and 36;
    what a caller has checked there still holds of the deque as it is now;
    the deque is within the minute cap. *)
Record lock_inv (rpm burst : Z) (s : state) : Prop := {
  inv_rpm : RateLimiter.requests_per_minute (shared s) = rpm;
  inv_bl : RateLimiter.burst_limit (shared s) = burst;
  inv_holder : forall i p,
      callers s !! i = Some p -> in_critical_section p = true -> holder s = Some i;
  inv_checked_minute : forall i now,
      callers s !! i = Some (CheckingBurst now) ->
      Z.of_nat (length (RateLimiter.requests (shared s))) < rpm;
  inv_checked_burst : forall i now,
      callers s !! i = Some (Appending now) ->
      Z.of_nat (length (RateLimiter.requests (shared s))) < rpm /\
      RateLimiter.recent_requests (now - RateLimiter.second) (RateLimiter.requests (shared s)) < burst;
  inv_cap : Z.of_nat (length (RateLimiter.requests (shared s))) <= rpm
}.

(** The deque in ascending order and not ahead of the clock. *)
Definition ordered (s : state) : Prop :=
  RateLimiter.monotonic (RateLimiter.requests (shared s) ++ [wall s]).

End Concurrent.

(** ** Strings: the [str] methods and operators the code uses *)

Module Str.

(** [str.lower()], one code point at a time. On U+0000 to U+00FF the
    cased upper-case letters are A-Z and U+00C0 to U+00DE less the
    multiplication sign U+00D7; each is 32 below its lower-case letter. *)
Definition lower_char (c : ascii) : ascii :=
  let n := nat_of_ascii c in
  if ((65 <=? n) && (n <=? 90)) ||
     ((192 <=? n) && (n <=? 222) && negb (n =? 215))
  then ascii_of_nat (n + 32)
  else c.

Fixpoint lower (s : string) : string :=
  match s with
  | EmptyString => EmptyString
  | String c s' => String (lower_char c) (lower s')
  end.

(** [s.startswith(sub)]. *)
Fixpoint startswith (sub s : string) : bool :=
  match sub, s with
  | EmptyString, _ => true
  | String _ _, EmptyString => false
  | String a sub', String b s' => Ascii.eqb a b && startswith sub' s'
  end.

(** [sub in s]: [sub] occurs in [s] as a contiguous run. *)
Fixpoint contains (sub s : string) : bool :=
  startswith sub s ||
  match s with
  | EmptyString => false
  | String _ s' => contains sub s'
  end.

(** [s[:n]]. *)
Fixpoint take (n : nat) (s : string) : string :=
  match n, s with
  | S n', String c s' => String c (take n' s')
  | _, _ => EmptyString
  end.

(** [s.encode()]: UTF-8, one byte below U+0080 and two from there to
    U+00FF. *)
Definition encode_char (c : ascii) : list Z :=
  let n := Z.of_nat (nat_of_ascii c) in
  if (n <? 128)%Z then [n]
  else [Z.lor 192 (Z.shiftr n 6); Z.lor 128 (Z.land n 63)].

Fixpoint encode (s : string) : list Z :=
  match s with
  | EmptyString => []
  | String c s' => encode_char c ++ encode s'
  end.

End Str.

(** ** PersonData (crawler.py, lines 52-59) *)

(** The dataclass. [None] is a value of every field but [name]: the
    defaults of [education], [public_links] and [last_updated] are [None]
    whatever their annotations say. *)
Record PersonData : Type := mkPersonData {
  name : string;
  professional_title : option string;
  company : option string;
  education : option (list string);
  public_links : option (list string);
  last_updated : option string
}.

(** ** SHA-256 (FIPS 180-4), as [hashlib.sha256(...).hexdigest()] computes it *)

Module Sha256.
Local Open Scope Z_scope.

(** 32-bit words are integers in [0, 2^32); the operations wrap. *)
Definition mask32 : Z := 4294967295.
Definition add32 (a b : Z) : Z := Z.land (a + b) mask32.
Definition not32 (a : Z) : Z := Z.lxor a mask32.
Definition rotr (n a : Z) : Z :=
  Z.lor (Z.shiftr a n) (Z.land (Z.shiftl a (32 - n)) mask32).

Definition Ch (x y z : Z) : Z := Z.lxor (Z.land x y) (Z.land (not32 x) z).
Definition Maj (x y z : Z) : Z :=
  Z.lxor (Z.lxor (Z.land x y) (Z.land x z)) (Z.land y z).
Definition Sigma0 (x : Z) : Z := Z.lxor (Z.lxor (rotr 2 x) (rotr 13 x)) (rotr 22 x).
Definition Sigma1 (x : Z) : Z := Z.lxor (Z.lxor (rotr 6 x) (rotr 11 x)) (rotr 25 x).
Definition sigma0 (x : Z) : Z := Z.lxor (Z.lxor (rotr 7 x) (rotr 18 x)) (Z.shiftr x 3).
Definition sigma1 (x : Z) : Z := Z.lxor (Z.lxor (rotr 17 x) (rotr 19 x)) (Z.shiftr x 10).

(** The constants of the standard are fractional parts of roots of the
    first primes, 32 bits of each: of the cube roots of the first 64 for the
    round constants, of the square roots of the first 8 for the initial
    chaining value. *)
Definition is_prime (n : nat) : bool :=
  forallb (fun d => negb (n mod d =? 0)%nat) (seq 2 (n - 2)).

Definition primes : list Z :=
  map Z.of_nat (List.filter is_prime (seq 2 310)).

(** The integer cube root of a number below [2^108], a bit at a time. *)
Definition cube_root (n : Z) : Z :=
  fold_left (fun r bit => let r' := r + Z.shiftl 1 (Z.of_nat bit) in
                          if r' * r' * r' <=? n then r' else r)
            (rev (seq 0 36)) 0.

Definition K : list Z :=
  map (fun p => Z.land (cube_root (Z.shiftl p 96)) mask32) primes.

(** The eight working variables, and the chaining value. *)
Record Words8 : Type := mkWords8 {
  wa : Z; wb : Z; wc : Z; wd : Z; we : Z; wf : Z; wg : Z; wh : Z
}.

Definition root_bits (i : nat) : Z :=
  Z.land (Z.sqrt (Z.shiftl (nth i primes 0) 64)) mask32.

Definition H0 : Words8 :=
  mkWords8 (root_bits 0) (root_bits 1) (root_bits 2) (root_bits 3)
           (root_bits 4) (root_bits 5) (root_bits 6) (root_bits 7).

(** Padding: a 1 bit, zeros up to 56 modulo 64 bytes, then the bit length
    of the message on 8 bytes, most significant first. *)
Definition be_bytes (count : nat) (x : Z) : list Z :=
  map (fun i => Z.land (Z.shiftr x (8 * Z.of_nat (count - 1 - i))) 255) (seq 0 count).

Definition pad (msg : list Z) : list Z :=
  let len := Z.of_nat (length msg) in
  let zeros := Z.to_nat ((55 - len) mod 64) in
  msg ++ [128] ++ repeat 0 zeros ++ be_bytes 8 (8 * len).

(** The 16 big-endian words of each 64-byte block. *)
Fixpoint words_of (fuel : nat) (bytes : list Z) : list Z :=
  match fuel, bytes with
  | S fuel', b0 :: b1 :: b2 :: b3 :: rest =>
      (Z.shiftl b0 24 + Z.shiftl b1 16 + Z.shiftl b2 8 + b3) :: words_of fuel' rest
  | _, _ => []
  end.

Fixpoint blocks_of (fuel : nat) (ws : list Z) : list (list Z) :=
  match fuel, ws with
  | _, [] => []
  | O, _ => []
  | S fuel', _ => firstn 16 ws :: blocks_of fuel' (skipn 16 ws)
  end.

(** The message schedule, most recent word first: from W[t-1] down to
    W[0], extended by [count] more words. *)
Fixpoint extend_schedule (count : nat) (rev_w : list Z) : list Z :=
  match count with
  | O => rev_w
  | S count' =>
      let w2 := nth 1 rev_w 0 in
      let w7 := nth 6 rev_w 0 in
      let w15 := nth 14 rev_w 0 in
      let w16 := nth 15 rev_w 0 in
      extend_schedule count'
        (add32 (add32 (add32 (sigma1 w2) w7) (sigma0 w15)) w16 :: rev_w)
  end.

Definition schedule (block : list Z) : list Z :=
  rev (extend_schedule 48 (rev block)).

Definition round (s : Words8) (kw : Z * Z) : Words8 :=
  let '(k, w) := kw in
  let t1 := add32 (add32 (add32 (add32 (wh s) (Sigma1 (we s))) (Ch (we s) (wf s) (wg s))) k) w in
  let t2 := add32 (Sigma0 (wa s)) (Maj (wa s) (wb s) (wc s)) in
  mkWords8 (add32 t1 t2) (wa s) (wb s) (wc s) (add32 (wd s) t1) (we s) (wf s) (wg s).

Definition compress (h : Words8) (block : list Z) : Words8 :=
  let s := fold_left round (combine K (schedule block)) h in
  mkWords8 (add32 (wa h) (wa s)) (add32 (wb h) (wb s)) (add32 (wc h) (wc s))
           (add32 (wd h) (wd s)) (add32 (we h) (we s)) (add32 (wf h) (wf s))
           (add32 (wg h) (wg s)) (add32 (wh h) (wh s)).

Definition sha256 (msg : list Z) : Words8 :=
  let bytes := pad msg in
  let ws := words_of (length bytes) bytes in
  fold_left compress (blocks_of (length ws) ws) H0.

(** [hexdigest()]: eight lower-case hexadecimal digits for each word. *)
Definition hex_digit (d : Z) : ascii :=
  if d <? 10 then ascii_of_nat (48 + Z.to_nat d) else ascii_of_nat (87 + Z.to_nat d).

Definition hex8 (w : Z) (tail : string) : string :=
  String (hex_digit (Z.land (Z.shiftr w 28) 15))
  (String (hex_digit (Z.land (Z.shiftr w 24) 15))
  (String (hex_digit (Z.land (Z.shiftr w 20) 15))
  (String (hex_digit (Z.land (Z.shiftr w 16) 15))
  (String (hex_digit (Z.land (Z.shiftr w 12) 15))
  (String (hex_digit (Z.land (Z.shiftr w 8) 15))
  (String (hex_digit (Z.land (Z.shiftr w 4) 15))
  (String (hex_digit (Z.land w 15)) tail))))))).

Definition hexdigest (h : Words8) : string :=
  hex8 (wa h) (hex8 (wb h) (hex8 (wc h) (hex8 (wd h)
  (hex8 (we h) (hex8 (wf h) (hex8 (wg h) (hex8 (wh h) EmptyString))))))).

End Sha256.

(** ** Exceptions, the world, and calls that can raise *)

Inductive Exn : Type :=
| NameError (name : string)        (* name ... is not defined *)
| AttributeError (attr : string)   (* object has no attribute ... *)
| TypeError (keyword : string)     (* got an unexpected keyword argument ... *)
| ValueError (message : string)
| OSError (path : string)          (* raised by [open] or [os.makedirs] *)
| RequestException (url : string). (* raised by [session.get] *)

(** What the network does with one [session.get]: a response, with its
    status code and the [href] of every [a] element of its body in document
    order ([None] for an element without one), or no response at all. *)
Inductive HttpReply : Type :=
| Response (status_code : Z) (anchors : list (option string))
| NoResponse.

(** The state of the process and of what it can reach.
    - [limiter]: the [RateLimiter] object of the crawler;
    - [dirs], [files]: the directories and the files of the file system, a
      file being the dictionary that [json.dump] wrote to it;
    - [unwritable]: the paths at which [open(path, 'w')] fails;
    - [http]: what the network does with the coming requests, in order,
      none left meaning no response;
    - [environ]: [os.environ]; [stdout]: the lines printed. *)
Record World : Type := mkWorld {
  clock : Time.Clock;
  limiter : RateLimiter.t;
  dirs : gset string;
  files : gmap string PersonData;
  unwritable : gset string;
  http : list HttpReply;
  environ : gmap string string;
  stdout : list string
}.

Definition set_clock (c : Time.Clock) (w : World) : World :=
  mkWorld c (limiter w) (dirs w) (files w) (unwritable w) (http w) (environ w) (stdout w).
Definition set_limiter (l : RateLimiter.t) (w : World) : World :=
  mkWorld (clock w) l (dirs w) (files w) (unwritable w) (http w) (environ w) (stdout w).
Definition set_dirs (d : gset string) (w : World) : World :=
  mkWorld (clock w) (limiter w) d (files w) (unwritable w) (http w) (environ w) (stdout w).
Definition set_files (f : gmap string PersonData) (w : World) : World :=
  mkWorld (clock w) (limiter w) (dirs w) f (unwritable w) (http w) (environ w) (stdout w).
Definition set_http (h : list HttpReply) (w : World) : World :=
  mkWorld (clock w) (limiter w) (dirs w) (files w) (unwritable w) h (environ w) (stdout w).
Definition set_environ (e : gmap string string) (w : World) : World :=
  mkWorld (clock w) (limiter w) (dirs w) (files w) (unwritable w) (http w) e (stdout w).
Definition set_stdout (o : list string) (w : World) : World :=
  mkWorld (clock w) (limiter w) (dirs w) (files w) (unwritable w) (http w) (environ w) o.

(** How a call ends: it returns a value, or it raises, either way in some
    world; or it is still inside [wait_if_needed] when the fuel of the model
    runs out. *)
Inductive Outcome (A : Type) : Type :=
| Return (a : A) (w : World)
| Raise (e : Exn) (w : World)
| Blocked.
Arguments Return {A} a w.
Arguments Raise {A} e w.
Arguments Blocked {A}.

Definition M (A : Type) : Type := World -> Outcome A.

Definition ret {A : Type} (a : A) : M A := fun w => Return a w.
Definition raise {A : Type} (e : Exn) : M A := fun w => Raise e w.
Definition bind {A B : Type} (m : M A) (k : A -> M B) : M B :=
  fun w =>
    match m w with
    | Return a w' => k a w'
    | Raise e w' => Raise e w'
    | Blocked => Blocked
    end.

Notation "'let*' x := m 'in' k" := (bind m (fun x => k))
  (at level 10, x name, m at level 100, k at level 200).

(** [os.makedirs(path, exist_ok=True)] and [os.path.join]. *)
Record OsModule : Type := mkOs {
  makedirs : string -> M unit;
  path_join : string -> string -> string
}.

(** The result of a source lookup: a [dict] from field names to lists of
    strings. *)
Abbreviation Info := (gmap string (list string)).

(** What the names that [crawler.py] uses and does not itself define are
    bound to when the code runs: the global [os], and the attributes
    [search_github], [search_scholar] and [combine_info] of a crawler.
    [combine_info] updates the record it is given in place; here it returns
    the record as it leaves it. *)
Record Bindings : Type := mkBindings {
  os : option OsModule;
  search_github : option (string -> M Info);
  search_scholar : option (string -> M Info);
  combine_info : option (PersonData -> Info -> Info -> Info -> M PersonData)
}.

(** The file as it is: it never imports [os], and the class
    [EnhancedWebCrawler] defines no method of these three names. *)
Definition as_written : Bindings := mkBindings None None None None.

(** Looking up a global name, and an attribute of an instance. *)
Definition global {A : Type} (name : string) (binding : option A) : M A :=
  match binding with
  | Some v => ret v
  | None => raise (NameError name)
  end.

Definition getattr {A : Type} (attr : string) (binding : option A) : M A :=
  match binding with
  | Some v => ret v
  | None => raise (AttributeError attr)
  end.

(** ** DataHandler (crawler.py, lines 61-110) *)

Module DataHandler.
Local Open Scope string_scope.

Record t : Type := mk { storage_path : string }.

(** [os.makedirs(self.storage_path, exist_ok=True)]. *)
Definition ensure_storage_exists (b : Bindings) (self : t) : M unit :=
  let* os_module := global "os" (os b) in
  makedirs os_module (storage_path self).

(** [DataHandler(storage_path)]. *)
Definition init (b : Bindings) (path : string) : M t :=
  let self := mk path in
  let* _ := ensure_storage_exists b self in
  ret self.

(** The default of the signature: [storage_path="data/"]. *)
Definition default_storage_path : string := "data/".

(** How an f-string renders an [Optional[str]]. *)
Definition format (field : option string) : string :=
  match field with
  | Some s => s
  | None => "None"
  end.

(** [generate_id]: the first 12 hexadecimal digits of the SHA-256 of
    [f"{data.name}_{data.professional_title}_{data.company}"]. *)
Definition generate_id (self : t) (data : PersonData) : string :=
  let identifier :=
    name data ++ "_" ++ format (professional_title data) ++ "_" ++ format (company data) in
  Str.take 12 (Sha256.hexdigest (Sha256.sha256 (Str.encode identifier))).

Definition allowed_domains : list string :=
  ["linkedin.com/in/"; "github.com/"; "scholar.google.com/"; "twitter.com/"].

(** [is_safe_link]: [any(domain in link.lower() for domain in allowed_domains)]. *)
Definition is_safe_link (link : string) : bool :=
  existsb (fun domain => Str.contains domain (Str.lower link)) allowed_domains.

(** [data.public_links or []]. *)
Definition or_empty (links : option (list string)) : list string :=
  match links with
  | Some l => l
  | None => []
  end.

(** [sanitize_data]: a new record; the one passed in is left as it is. *)
Definition sanitize_data (self : t) (data : PersonData) : M PersonData :=
  fun w =>
    Return (mkPersonData
              (name data)
              (professional_title data)
              (company data)
              (education data)
              (Some (List.filter is_safe_link (or_empty (public_links data))))
              (Some (Time.isoformat (Time.datetime_now (clock w)))))
           w.

(** [with open(file_path, 'w') as f: json.dump(d, f)]: the file is created
    or truncated, then written. *)
Definition write_json (file_path : string) (d : PersonData) : M unit :=
  fun w =>
    if decide (file_path ∈ unwritable w) then Raise (OSError file_path) w
    else Return tt (set_files (<[file_path := d]> (files w)) w).

(** [save_person_data]. *)
Definition save_person_data (b : Bindings) (self : t) (data : PersonData) : M string :=
  let person_id := generate_id self data in
  let* sanitized_data := sanitize_data self data in
  let* os_module := global "os" (os b) in
  let file_path := path_join os_module (storage_path self) (person_id ++ ".json") in
  let* _ := write_json file_path sanitized_data in
  ret person_id.

End DataHandler.

(** ** EnhancedWebCrawler (crawler.py, lines 115-173) *)

Module EnhancedWebCrawler.
Local Open Scope string_scope.

(** The instance: its [rate_limiter] is the [limiter] of the world. *)
Record t : Type := mk { data_handler : DataHandler.t }.

(** The parameters of [__init__] after [self]: none. *)
Definition init_parameters : list string := [].

(** [__init__]: [RateLimiter(requests_per_minute=60)], then [DataHandler()]. *)
Definition init (b : Bindings) : M t :=
  fun w =>
    (let* handler := DataHandler.init b DataHandler.default_storage_path in
     ret (mk handler))
    (set_limiter (RateLimiter.init 60 10) w).

(** Binding the keyword arguments of a call to the parameters of the
    function: the first keyword that names no parameter, if there is one. *)
Fixpoint unexpected_keyword (parameters : list string)
    (kwargs : list (string * option string)) : option string :=
  match kwargs with
  | [] => None
  | (k, _) :: rest =>
      if existsb (String.eqb k) parameters then unexpected_keyword parameters rest
      else Some k
  end.

(** A call of the class with keyword arguments: they are bound to the
    parameters of [__init__] before its body runs. *)
Definition new (kwargs : list (string * option string)) (b : Bindings) : M t :=
  match unexpected_keyword init_parameters kwargs with
  | Some k => raise (TypeError k)
  | None => init b
  end.

(** [self.rate_limiter.wait_if_needed()]. *)
Definition wait_if_needed (fuel : nat) : M unit :=
  fun w =>
    match RateLimiter.wait_if_needed fuel (limiter w) (clock w) with
    | Some (l, c) => Return tt (set_clock c (set_limiter l w))
    | None => Blocked
    end.

(** [self.session.get(url)]: the status code and the anchors of the
    response, or the exception of the request. *)
Definition session_get (url : string) : M (Z * list (option string)) :=
  fun w =>
    match http w with
    | Response status body :: rest => Return (status, body) (set_http rest w)
    | NoResponse :: rest => Raise (RequestException url) (set_http rest w)
    | [] => Raise (RequestException url) w
    end.

(** [parse_linkedin_results]: the [href] values that contain
    ['linkedin.com/in/'], an absent [href] counting as the empty string;
    the first of them, if any, under the key ['public_links']. *)
Definition parse_linkedin_results (anchors : list (option string)) : Info :=
  let public_profiles :=
    omap (fun href : option string =>
            match href with
            | Some h => if Str.contains "linkedin.com/in/" h then Some h else None
            | None => None
            end) anchors in
  match public_profiles with
  | [] => ∅
  | _ :: _ => {[ "public_links" := firstn 1 public_profiles ]}
  end.

(** [search_linkedin]. *)
Definition search_linkedin (fuel : nat) (self : t) (name : string) : M Info :=
  let* _ := wait_if_needed fuel in
  let search_url := "https://www.google.com/search?q=site:linkedin.com/in/ " ++ name in
  let* response := session_get search_url in
  if (fst response =? 200)%Z then ret (parse_linkedin_results (snd response))
  else ret ∅.

(** Lines 127-137 of [search_person]: the permit, the fresh record, the
    three lookups and the merge. *)
Definition gather (fuel : nat) (b : Bindings) (self : t) (name : string) : M PersonData :=
  let* _ := wait_if_needed fuel in
  let person_data := mkPersonData name None None None None None in
  let* linkedin_info := search_linkedin fuel self name in
  let* search_github := getattr "search_github" (search_github b) in
  let* github_info := search_github name in
  let* search_scholar := getattr "search_scholar" (search_scholar b) in
  let* scholar_info := search_scholar name in
  let* combine_info := getattr "combine_info" (combine_info b) in
  combine_info person_data linkedin_info github_info scholar_info.

(** [search_person]: [gather], then lines 139-142. *)
Definition search_person (fuel : nat) (b : Bindings) (self : t) (name : string) : M PersonData :=
  let* person_data := gather fuel b self name in
  let* _ := DataHandler.save_person_data b (data_handler self) person_data in
  ret person_data.

End EnhancedWebCrawler.

(** ** The entry point (main.py) *)

Module Main.
Local Open Scope string_scope.

(** What [main.py] imports from outside the two files: [load_dotenv], as
    what it does to [os.environ], and [InfoBot], whose instances are
    modelled by their [run] method. *)
Record Collaborators : Type := mkCollaborators {
  load_dotenv : gmap string string -> gmap string string;
  InfoBot : option string -> EnhancedWebCrawler.t -> M (M unit)
}.

(** The truth value of what [os.getenv] returns: false for [None] and for
    the empty string. *)
Definition truthy (value : option string) : bool :=
  match value with
  | Some (String _ _) => true
  | Some EmptyString => false
  | None => false
  end.

Definition print (line : string) : M unit :=
  fun w => Return tt (set_stdout (stdout w ++ [line]) w).

Definition main (ext : Collaborators) (b : Bindings) : M unit :=
  fun w0 =>
    let w := set_environ (load_dotenv ext (environ w0)) w0 in
    let BOT_TOKEN := environ w !! "TELEGRAM_BOT_TOKEN" in
    let GOOGLE_API_KEY := environ w !! "GOOGLE_API_KEY" in
    let SEARCH_ENGINE_ID := environ w !! "SEARCH_ENGINE_ID" in
    if negb (forallb truthy [BOT_TOKEN; GOOGLE_API_KEY; SEARCH_ENGINE_ID]) then
      Raise (ValueError "Missing required API keys in environment variables") w
    else
      (let* crawler :=
         EnhancedWebCrawler.new
           [("google_api_key", GOOGLE_API_KEY);
            ("search_engine_id", SEARCH_ENGINE_ID)] b in
       let* bot := InfoBot ext BOT_TOKEN crawler in
       let* _ := print "Bot is running..." in
       bot) w.

End Main.

(** ** Observing outcomes, and bindings to run the code with *)

Definition returned {A : Type} (o : Outcome A) : option A :=
  match o with
  | Return a _ => Some a
  | _ => None
  end.

Definition raised {A : Type} (o : Outcome A) : option Exn :=
  match o with
  | Raise e _ => Some e
  | _ => None
  end.

Definition final {A : Type} (o : Outcome A) : option World :=
  match o with
  | Return _ w => Some w
  | Raise _ w => Some w
  | Blocked => None
  end.

(** The two functions of the [os] module that the code names, as they
    behave on a POSIX system. *)
Module Posix.
Local Open Scope string_scope.

Fixpoint ends_with_slash (s : string) : bool :=
  match s with
  | EmptyString => false
  | String c EmptyString => Ascii.eqb c "/"
  | String _ s' => ends_with_slash s'
  end.

(** [os.path.join(a, b)]. *)
Definition join (a b : string) : string :=
  if Str.startswith "/" b then b
  else if (a =? "") || ends_with_slash a then a ++ b
  else a ++ "/" ++ b.

(** [os.makedirs(path, exist_ok=True)]. Where it fails is for the file
    system to say (a file in the way of the path or of one of its parents,
    an empty path, a missing permission): [refused] is the set of the paths
    at which it raises. At any other path it leaves the directory in
    place. *)
Definition makedirs_exist_ok (refused : gset string) (path : string) : M unit :=
  fun w =>
    if decide (path ∈ refused) then Raise (OSError path) w
    else Return tt (set_dirs ({[ path ]} ∪ dirs w) w).

(** The module on a file system that refuses [os.makedirs] at [refused]. *)
Definition os_on (refused : gset string) : OsModule :=
  mkOs (makedirs_exist_ok refused) join.

(** The module on a file system that refuses it nowhere. *)
Definition os_module : OsModule := os_on ∅.

End Posix.

(** [crawler.py] with [import os] added to it, and nothing else. *)
Definition with_os_imported : Bindings := mkBindings (Some Posix.os_module) None None None.

(** A world whose limiter has room under both caps and holds no timestamp
    of the future: in it [wait_if_needed] returns. *)
Definition ready (w : World) : Prop :=
  (1 <= RateLimiter.requests_per_minute (limiter w))%Z /\
  (1 <= RateLimiter.burst_limit (limiter w))%Z /\
  Forall (fun r => (r <= Time.reading (clock w))%Z) (RateLimiter.requests (limiter w)).

(** A world at 2026-11-03T17:29:00.123456 with an empty file system, a new
    limiter with the caps of the crawler, and the given network. *)
Definition fresh_world (replies : list HttpReply) : World :=
  mkWorld (Time.mkClock 63929323740123456 [] []) (RateLimiter.init 60 10)
          ∅ ∅ ∅ replies ∅ [].

(** A crawler as [__init__] leaves it when it does not raise. *)
Definition a_crawler : EnhancedWebCrawler.t :=
  EnhancedWebCrawler.mk (DataHandler.mk DataHandler.default_storage_path).

Module Scenario.
Local Open Scope string_scope.

(** Modelled from the spec: [search_github] and [search_scholar], which
    [search_person] calls and the repository does not define. Section 4.3
    has a source contribute zero or more candidate links; here a source is
    the links it contributes. *)
Definition source (links : list string) : string -> M Info :=
  fun _ => ret (if links is [] then ∅ else {[ "public_links" := links ]}).

Definition first_of (key : string) (info : Info) : option string :=
  match info !! key with
  | Some (v :: _) => Some v
  | _ => None
  end.

Definition first_set (field : option string) (key : string) (infos : list Info) : option string :=
  match field with
  | Some v => Some v
  | None => head (omap (first_of key) infos)
  end.

(** Modelled from the spec: [combine_info], which [search_person] calls and
    the repository does not define. Section 4.3, step 3: a scalar field is
    set only if it is unset, by the first source that has it; of the links
    of each source only the first is appended. *)
Definition merge (data : PersonData) (linkedin github scholar : Info) : M PersonData :=
  let infos := [linkedin; github; scholar] in
  ret (mkPersonData
         (name data)
         (first_set (professional_title data) "professional_title" infos)
         (first_set (company data) "company" infos)
         (education data)
         (Some (DataHandler.or_empty (public_links data) ++
                omap (first_of "public_links") infos)%list)
         (last_updated data)).

(** The end-to-end scenario of the spec: one source returns
    ["github.com/janedoe"], another ["badsite.com/jane"]; [os] is imported. *)
Definition bindings : Bindings :=
  mkBindings (Some Posix.os_module)
             (Some (source ["github.com/janedoe"]))
             (Some (source ["badsite.com/jane"]))
             (Some merge).

(** The same with the module [os] left out, as in the file. *)
Definition bindings_without_os : Bindings :=
  mkBindings None
             (Some (source ["github.com/janedoe"]))
             (Some (source ["badsite.com/jane"]))
             (Some merge).

End Scenario.

(** Collaborators for running [main]: a [load_dotenv] that finds no file,
    and a bot that prints a line when it is made and when it runs. *)
Definition some_collaborators : Main.Collaborators :=
  Main.mkCollaborators
    (fun env => env)
    (fun _ _ => let* _ := Main.print "bot created" in ret (Main.print "bot started")).

(** An environment with the three variables in it. *)
Definition full_environ : gmap string string :=
  {[ "TELEGRAM_BOT_TOKEN" := "123:abc"; "GOOGLE_API_KEY" := "key";
     "SEARCH_ENGINE_ID" := "cx" ]}%string.

(** ** Definitions for further properties *)

(** The lock is never held by a caller that is outside the [with] block. *)
Definition holder_inside (s : Concurrent.state) : Prop :=
  forall h, Concurrent.holder s = Some h ->
    exists p, Concurrent.callers s !! h = Some p /\
              Concurrent.in_critical_section p = true.

(** The characters [0-9a-f]. *)
Definition is_hex_digit (c : ascii) : bool :=
  let n := nat_of_ascii c in
  ((48 <=? n) && (n <=? 57)) || ((97 <=? n) && (n <=? 102)).

(** Every character of [s] satisfies [p]. *)
Fixpoint all_chars (p : ascii -> bool) (s : string) : bool :=
  match s with
  | EmptyString => true
  | String c s' => p c && all_chars p s'
  end.

(** The test of [parse_linkedin_results] on one [a] element:
    ['linkedin.com/in/' in str(link.get('href', ''))]. *)
Definition is_profile_anchor (href : option string) : bool :=
  match href with
  | Some h => Str.contains "linkedin.com/in/" h
  | None => false
  end.

(** ** CrawlerLogger (crawler.py, lines 181-208) *)

Module CrawlerLogger.
Local Open Scope string_scope.

(** The levels of the [logging] module, with their numbers and names. *)
Inductive Level : Type := NOTSET | DEBUG | INFO | WARNING | ERROR | CRITICAL.

Definition levelno (l : Level) : Z :=
  match l with
  | NOTSET => 0 | DEBUG => 10 | INFO => 20
  | WARNING => 30 | ERROR => 40 | CRITICAL => 50
  end.

Definition levelname (l : Level) : string :=
  match l with
  | NOTSET => "NOTSET" | DEBUG => "DEBUG" | INFO => "INFO"
  | WARNING => "WARNING" | ERROR => "ERROR" | CRITICAL => "CRITICAL"
  end.

(** A handler: where it writes, and the level below which it drops a
    record. All handlers of the file have the same formatter. *)
Inductive Target : Type :=
| ToFile (path : string)   (* [logging.FileHandler(path)], opened for appending *)
| ToStderr.                (* [logging.StreamHandler()] *)

Record Handler : Type := mkHandler { target : Target; handler_level : Level }.

(** The state that the [logging] module keeps for the process, and what it
    has written: the level and the handlers of the one logger named
    ['WebCrawler'], which every [getLogger('WebCrawler')] returns; the lines
    of each log file; the lines on the standard error; the paths that cannot
    be opened. The root logger is taken to have no handler, as it has until
    someone adds one. *)
Record Logging : Type := mkLogging {
  logger_level : Level;
  handlers : list Handler;
  log_files : gmap string (list string);
  console : list string;
  locked : gset string
}.

(** The module as the interpreter starts: the logger has no level of its
    own and no handler. *)
Definition at_start : Logging := mkLogging NOTSET [] ∅ [] ∅.

(** How a constructor ends. *)
Inductive Made : Type :=
| Constructed (st : Logging)
| Failed (e : Exn) (st : Logging).

(** [CrawlerLogger()]: the level of the shared logger is set, then the two
    handlers are made and added to it. Opening the file creates it when it
    is absent and keeps what it holds. *)
Definition init (st : Logging) : Made :=
  let st1 := mkLogging INFO (handlers st) (log_files st) (console st) (locked st) in
  if decide ("crawler.log" ∈ locked st1) then Failed (OSError "crawler.log") st1
  else
    let opened :=
      match log_files st1 !! "crawler.log" with
      | Some _ => log_files st1
      | None => <["crawler.log" := []]> (log_files st1)
      end in
    let fh := mkHandler (ToFile "crawler.log") INFO in
    let ch := mkHandler ToStderr WARNING in
    Constructed (mkLogging INFO (handlers st1 ++ [fh; ch])%list opened (console st1) (locked st1)).

(** The formatter:
    ['%(asctime)s - %(name)s - %(levelname)s - %(message)s']. *)
Definition format_record (asctime : string) (l : Level) (message : string) : string :=
  asctime ++ " - " ++ "WebCrawler" ++ " - " ++ levelname l ++ " - " ++ message.

(** A handler handles a record: it drops it below its level and writes the
    formatted line otherwise. *)
Definition handle (l : Level) (line : string) (st : Logging) (h : Handler) : Logging :=
  if (levelno l <? levelno (handler_level h))%Z then st
  else
    match target h with
    | ToFile path =>
        mkLogging (logger_level st) (handlers st)
                  (<[path := (default [] (log_files st !! path) ++ [line])%list]> (log_files st))
                  (console st) (locked st)
    | ToStderr =>
        mkLogging (logger_level st) (handlers st) (log_files st)
                  (console st ++ [line])%list (locked st)
    end.

(** The level that decides whether the logger makes a record: its own, or
    that of the root logger, [WARNING], when it has none. *)
Definition effective_level (st : Logging) : Level :=
  match logger_level st with
  | NOTSET => WARNING
  | l => l
  end.

(** [self.logger.log(l, message)], at the time that [asctime] renders: every
    handler of the logger gets the record; with no handler at all the
    handler of last resort prints the bare message of a record at [WARNING]
    or above. *)
Definition log (l : Level) (asctime message : string) (st : Logging) : Logging :=
  if (levelno l <? levelno (effective_level st))%Z then st
  else
    match handlers st with
    | [] =>
        if (levelno l <? levelno WARNING)%Z then st
        else mkLogging (logger_level st) (handlers st) (log_files st)
                       (console st ++ [message])%list (locked st)
    | hs => fold_left (handle l (format_record asctime l message)) hs st
    end.

(** [log_search(name, success, error)], [error] being what [str(error)]
    gives, or [None]. *)
Definition log_search (asctime name : string) (success : bool) (error : option string)
    (st : Logging) : Logging :=
  if success then log INFO asctime ("Successfully searched for " ++ name) st
  else log ERROR asctime
         ("Failed to search for " ++ name ++ ": " ++ DataHandler.format error) st.

(** The handlers that [count] constructions add. *)
Definition installed (count : nat) : list Handler :=
  concat (repeat [mkHandler (ToFile "crawler.log") INFO; mkHandler ToStderr WARNING] count).

End CrawlerLogger.

(** [count] crawler loggers made one after the other. *)
Fixpoint construct (count : nat) (st : CrawlerLogger.Logging) : CrawlerLogger.Made :=
  match count with
  | O => CrawlerLogger.Constructed st
  | S n =>
      match CrawlerLogger.init st with
      | CrawlerLogger.Constructed st' => construct n st'
      | CrawlerLogger.Failed e st' => CrawlerLogger.Failed e st'
      end
  end.

(** ** The search after its first lookup *)

(** Lines 133-142 of [search_person]: what follows the lookup on LinkedIn,
    given what that lookup returned. *)
Definition after_linkedin (b : Bindings) (self : EnhancedWebCrawler.t) (name : string)
    (linkedin_info : Info) : M PersonData :=
  let person_data := mkPersonData name None None None None None in
  let* search_github := getattr "search_github" (search_github b) in
  let* github_info := search_github name in
  let* search_scholar := getattr "search_scholar" (search_scholar b) in
  let* scholar_info := search_scholar name in
  let* combine_info := getattr "combine_info" (combine_info b) in
  let* person_data := combine_info person_data linkedin_info github_info scholar_info in
  let* _ := DataHandler.save_person_data b (EnhancedWebCrawler.data_handler self) person_data in
  ret person_data.

(** ** The wait loop against the wall clock *)

(** [wait_if_needed] (lines 39-41) with [datetime.now()] as the wall clock
    gives it: the k-th attempt reads the k-th element of [readings], whatever
    it is, and a sleep of 100ms separates one attempt from the next. The
    result is the timestamp of the permit, the sleeps made, the readings not
    read and the limiter; [None] says that every reading was read and every
    attempt rejected. *)
Fixpoint wait_on (readings : list Z) (self : RateLimiter.t)
    : option (Z * list Z * list Z * RateLimiter.t) :=
  match readings with
  | [] => None
  | now :: rest =>
      let '(ok, self') := RateLimiter.can_make_request now self in
      if ok then Some (now, [], rest, self')
      else
        match wait_on rest self' with
        | Some (stamp, sleeps, rest', final) =>
            Some (stamp, RateLimiter.retry_interval :: sleeps, rest', final)
        | None => None
        end
  end.

(** [count] calls of [wait_if_needed] one after the other: the timestamps of
    the permits, the readings not read and the limiter. *)
Fixpoint permits_on (count : nat) (readings : list Z) (self : RateLimiter.t)
    : option (list Z * list Z * RateLimiter.t) :=
  match count with
  | O => Some ([], readings, self)
  | S n =>
      match wait_on readings self with
      | None => None
      | Some (stamp, _, rest, self') =>
          match permits_on n rest self' with
          | Some (stamps, rest', final) => Some (stamp :: stamps, rest', final)
          | None => None
          end
      end
  end.

(** A clock that every sleep of 100ms moves forward by 100ms at least. *)
Fixpoint advancing (readings : list Z) : Prop :=
  match readings with
  | r0 :: rest =>
      match rest with
      | r1 :: _ => (r0 + RateLimiter.retry_interval <= r1)%Z
      | [] => True
      end /\ advancing rest
  | [] => True
  end.

(** The readings of the attempts of [RateLimiter.wait_if_needed] on a clock
    of [Time]. *)
Fixpoint readings_of (fuel : nat) (c : Time.Clock) : list Z :=
  match fuel with
  | O => []
  | S fuel' =>
      Time.reading c :: readings_of fuel' (Time.time_sleep RateLimiter.retry_interval c)
  end.

(** 2026-11-03T17:29:00, in microseconds. *)
Definition one_evening : Z := 63929323740000000.

(** [count] readings of a clock read every 100ms from [start]. *)
Definition ticking (start : Z) (count : nat) : list Z :=
  map (fun k => (start + Z.of_nat k * RateLimiter.retry_interval)%Z) (seq 0 count).
(** * Properties *)

(** ** The clock *)

Example isoformat_examples :
  Time.isoformat 63929323740123456 = "2026-11-03T17:29:00.123456"%string /\
  Time.isoformat 63844847999000000 = "2024-02-29T23:59:59"%string /\
  Time.isoformat 0 = "0001-01-01T00:00:00"%string /\
  Time.isoformat 63113817600000001 = "2000-12-31T00:00:00.000001"%string.
Proof. repeat split. Qed.

(** ** The caps of the rate limiter *)

Section RateLimiterCaps.
Import RateLimiter.
Local Open Scope Z_scope.

Lemma count_app p (l1 l2 : list Z) : count p (l1 ++ l2) = count p l1 + count p l2.
Proof. unfold count. rewrite List.filter_app, length_app. lia. Qed.

Lemma count_nonneg p (l : list Z) : 0 <= count p l.
Proof. unfold count. lia. Qed.

Lemma count_le_length p (l : list Z) : count p l <= Z.of_nat (length l).
Proof. unfold count. pose proof (List.filter_length_le p l). lia. Qed.

Lemma count_none p (l : list Z) :
  Forall (fun x => p x = false) l -> count p l = 0.
Proof.
  unfold count. induction 1 as [|x l Hx _ IH]; simpl; [reflexivity|].
  rewrite Hx. exact IH.
Qed.

Lemma count_mono (p q : Z -> bool) (l : list Z) :
  Forall (fun x => p x = true -> q x = true) l -> count p l <= count q l.
Proof.
  unfold count. induction 1 as [|x l Hx _ IH]; simpl; [lia|].
  destruct (p x) eqn:Hp.
  - rewrite (Hx eq_refl). simpl. lia.
  - destruct (q x); simpl; lia.
Qed.

(** The entries popped by the eviction loop are exactly a prefix of stale
    timestamps. *)
Lemma popleft_stale_split minute_ago (q : list Z) :
  exists stale,
    q = stale ++ popleft_stale minute_ago q /\
    Forall (fun r => r < minute_ago) stale.
Proof.
  induction q as [|r q IH]; simpl.
  - exists []. split; [reflexivity|constructor].
  - destruct (r <? minute_ago) eqn:Hr.
    + destruct IH as (stale & Hq & Hst). exists (r :: stale). split.
      * simpl. congruence.
      * constructor; [lia|assumption].
    + exists []. split; [reflexivity|constructor].
Qed.

Lemma popleft_stale_length minute_ago (q : list Z) :
  (length (popleft_stale minute_ago q) <= length q)%nat.
Proof.
  destruct (popleft_stale_split minute_ago q) as (stale & Hq & _).
  rewrite Hq at 2. rewrite length_app. lia.
Qed.

Lemma popleft_stale_Forall (P : Z -> Prop) minute_ago (q : list Z) :
  Forall P q -> Forall P (popleft_stale minute_ago q).
Proof.
  intros H. destruct (popleft_stale_split minute_ago q) as (stale & Hq & _).
  rewrite Hq in H. apply List.Forall_app in H. tauto.
Qed.

Lemma caps_inv_init rpm burst c :
  0 <= rpm -> 0 <= burst -> caps_inv c (init rpm burst) [].
Proof.
  intros Hr Hb. split; simpl; try assumption.
  - exists []. split; [reflexivity|constructor].
  - constructor.
Qed.

Lemma can_make_request_config now self :
  requests_per_minute (snd (can_make_request now self)) = requests_per_minute self /\
  burst_limit (snd (can_make_request now self)) = burst_limit self.
Proof.
  unfold can_make_request.
  repeat match goal with |- context [if ?b then _ else _] => destruct b end;
    simpl; auto.
Qed.

Lemma caps_inv_step c now self acc :
  c <= now -> caps_inv c self acc ->
  let r := can_make_request now self in
  caps_inv now (snd r) (if fst r then acc ++ [now] else acc).
Proof.
  intros Hc [(dropped & Hacc & Hdrop) Hpast Hmin Hburst].
  destruct (popleft_stale_split (now - minute) (requests self)) as (stale & Hq & Hstale).
  set (q := popleft_stale (now - minute) (requests self)) in *.
  assert (Hqpast : Forall (fun r => r <= now) q).
  { apply popleft_stale_Forall. eapply List.Forall_impl; [|exact Hpast].
    simpl. intros; lia. }
  assert (Hqlen : Z.of_nat (length q) <= requests_per_minute self).
  { pose proof (popleft_stale_length (now - minute) (requests self)).
    fold q in H. lia. }
  assert (Hqburst : count (in_second_window now) q <= burst_limit self).
  { etransitivity; [|exact Hburst].
    rewrite Hq, count_app.
    pose proof (count_nonneg (in_second_window c) stale).
    assert (count (in_second_window now) q <= count (in_second_window c) q); [|lia].
    apply count_mono.
    assert (Hqc : Forall (fun r => r <= c) q).
    { rewrite Hq in Hpast. apply List.Forall_app in Hpast. tauto. }
    eapply List.Forall_impl; [|exact Hqc]. simpl. unfold in_second_window.
    intros r Hr Hin. apply andb_true_iff in Hin as [H1 H2].
    apply andb_true_iff. split; [apply Z.ltb_lt in H1; apply Z.ltb_lt|apply Z.leb_le]; lia. }
  assert (Hsplit : exists dropped', acc = dropped' ++ q /\
                     Forall (fun r => r < now - minute) dropped').
  { exists (dropped ++ stale). split.
    - rewrite Hacc, Hq at 1. rewrite <- app_assoc. reflexivity.
    - apply List.Forall_app. split; [|assumption].
      eapply List.Forall_impl; [|exact Hdrop]. simpl. intros; lia. }
  simpl. unfold can_make_request. fold q.
  destruct (Z.of_nat (length q) >=? requests_per_minute self) eqn:Hfull; simpl.
  { split; simpl; assumption. }
  destruct (recent_requests (now - second) q >=? burst_limit self) eqn:Hb; simpl.
  { split; simpl; assumption. }
  split; simpl.
  - destruct Hsplit as (d & Hd & Hdd). exists d. split; [|assumption].
    rewrite Hd, <- app_assoc. reflexivity.
  - apply List.Forall_app. split; [assumption|]. constructor; [lia|constructor].
  - rewrite length_app. simpl. lia.
  - rewrite count_app.
    assert (Hrec : count (in_second_window now) q <= recent_requests (now - second) q).
    { unfold recent_requests. apply (count_mono (in_second_window now)).
      apply List.Forall_forall. intros r _. unfold in_second_window.
      intros H. apply andb_true_iff in H. tauto. }
    pose proof (count_le_length (in_second_window now) [now]). simpl in H. lia.
Qed.

(** From the invariant, the caps over the whole history of accepted calls,
    in the windows that end at [c] or at any later time [t]. *)
Lemma caps_inv_windows c t self acc :
  caps_inv c self acc -> c <= t ->
  count (in_minute_window t) acc <= requests_per_minute self /\
  count (in_second_window t) acc <= burst_limit self.
Proof.
  intros [(dropped & Hacc & Hdrop) Hpast Hmin Hburst] Ht. subst acc.
  rewrite !count_app. split.
  - rewrite count_none.
    + pose proof (count_le_length (in_minute_window t) (requests self)). lia.
    + eapply List.Forall_impl; [|exact Hdrop]. simpl. unfold in_minute_window.
      intros r Hr. apply andb_false_iff. left. apply Z.leb_gt. lia.
  - rewrite count_none.
    + assert (count (in_second_window t) (requests self)
              <= count (in_second_window c) (requests self)); [|lia].
      apply count_mono. eapply List.Forall_impl; [|exact Hpast]. simpl.
      unfold in_second_window. intros r Hr Hin.
      apply andb_true_iff in Hin as [H1 H2]. apply Z.ltb_lt in H1.
      apply andb_true_iff. split; [apply Z.ltb_lt|apply Z.leb_le]; lia.
    + eapply List.Forall_impl; [|exact Hdrop]. simpl. unfold in_second_window.
      intros r Hr. apply andb_false_iff. left. apply Z.ltb_ge.
      unfold minute, second in *. lia.
Qed.

Lemma accepted_cons now ok log :
  accepted ((now, ok) :: log) = if ok then now :: accepted log else accepted log.
Proof. unfold accepted. simpl. destruct ok; reflexivity. Qed.

(** The invariant along a whole run: [acc0] are the timestamps accepted
    before the run. *)
Lemma caps_inv_calls ticks : forall c self acc0 now,
  monotonic (c :: ticks ++ [now]) ->
  caps_inv c self acc0 ->
  let r := calls self (ticks ++ [now]) in
  caps_inv now (snd r) (acc0 ++ accepted (fst r)).
Proof.
  induction ticks as [|t1 ticks IH]; intros c self acc0 now Hmono Hinv.
  - simpl in *. destruct Hmono as [Hc _].
    apply List.Forall_inv in Hc.
    pose proof (caps_inv_step c now self acc0 Hc Hinv) as Hstep. simpl in Hstep.
    destruct (can_make_request now self) as [ok self'] eqn:E. simpl in *.
    rewrite accepted_cons. destruct ok; simpl.
    + exact Hstep.
    + unfold accepted. simpl. rewrite app_nil_r. exact Hstep.
  - simpl in Hmono. destruct Hmono as [Hc Hrest].
    assert (Hct : c <= t1) by (apply List.Forall_inv in Hc; exact Hc).
    pose proof (caps_inv_step c t1 self acc0 Hct Hinv) as Hstep. simpl in Hstep.
    change ((t1 :: ticks) ++ [now]) with (t1 :: (ticks ++ [now])).
    simpl. destruct (can_make_request t1 self) as [ok self'] eqn:E. simpl in Hstep.
    specialize (IH t1 self' (if ok then acc0 ++ [t1] else acc0) now Hrest Hstep).
    simpl in IH.
    destruct (calls self' (ticks ++ [now])) as [log final] eqn:E2. simpl in *.
    rewrite accepted_cons. destruct ok; simpl.
    + rewrite <- app_assoc in IH. exact IH.
    + exact IH.
Qed.

(** C2, as the code has it. For every sequence of calls to
    [can_make_request] on a new limiter whose caps are not negative, made at
    the readings [before ++ [now]] of a clock that is never set back: once
    the call at [now] is made, and at any time [t] from then on, the accepted
    calls whose timestamps lie in the trailing 60-second window are at most
    [requests_per_minute], and those in the trailing 1-second window are at
    most [burst_limit]. The code takes its timestamps from [datetime.now()],
    the wall clock, and does nothing about a clock that is set back. *)
Theorem can_make_request_respects_caps (rpm burst : Z) (before : list Z) (now t : Z) :
  0 <= rpm -> 0 <= burst ->
  monotonic (before ++ [now]) -> now <= t ->
  let admitted := accepted (fst (calls (init rpm burst) (before ++ [now]))) in
  count (in_minute_window t) admitted <= rpm /\
  count (in_second_window t) admitted <= burst.
Proof.
  intros Hr Hb Hmono Ht admitted.
  set (c0 := hd now before).
  assert (Hm0 : monotonic (c0 :: before ++ [now])).
  { split; [|exact Hmono]. destruct before as [|b before]; simpl in *.
    - constructor; [subst c0; simpl; lia|constructor].
    - subst c0. simpl. constructor; [lia|]. tauto. }
  pose proof (caps_inv_calls before c0 (init rpm burst) [] now Hm0
                (caps_inv_init rpm burst c0 Hr Hb)) as Hinv.
  simpl in Hinv. apply (caps_inv_windows now t) in Hinv; [|exact Ht].
  assert (Hcfg : forall ticks self,
             requests_per_minute (snd (calls self ticks)) = requests_per_minute self /\
             burst_limit (snd (calls self ticks)) = burst_limit self).
  { induction ticks as [|t1 ticks IH]; intros self; simpl; [auto|].
    pose proof (can_make_request_config t1 self) as [H1 H2].
    destruct (can_make_request t1 self) as [ok self']. simpl in *.
    specialize (IH self'). destruct (calls self' ticks). simpl in *.
    destruct IH. split; congruence. }
  destruct (Hcfg (before ++ [now]) (init rpm burst)) as [H1 H2].
  rewrite H1, H2 in Hinv. exact Hinv.
Qed.

(** The theorem at a concrete run: caps 2 and 1, calls at 0s, 0.5s and 2s,
    the windows taken at 2.3s. *)
Lemma can_make_request_respects_caps_witness :
  let admitted := accepted (fst (calls (init 2 1) ([0; 500000] ++ [2000000]))) in
  count (in_minute_window 2300000) admitted <= 2 /\
  count (in_second_window 2300000) admitted <= 1.
Proof.
  apply (can_make_request_respects_caps 2 1 [0; 500000] 2000000 2300000);
    [lia | lia | simpl; repeat constructor; lia | lia].
Defined.

(** Against C2 as stated. The wall clock is set back by 61 seconds between
    the third call and the fourth: all four calls are accepted under a cap
    of 2 a minute, and three of them are stamped in the 60 seconds that end
    at the fourth. And on a limiter made with a negative cap no call is
    accepted, which is still more than the cap. *)
Lemma caps_exceeded_when_clock_is_set_back :
  let admitted :=
    accepted (fst (calls (init 2 10)
                     [one_evening; one_evening; one_evening + 61000000; one_evening])) in
  admitted = [one_evening; one_evening; one_evening + 61000000; one_evening] /\
  count (in_minute_window one_evening) admitted = 3 /\
  ~ count (in_minute_window one_evening) admitted <= requests_per_minute (init 2 10) /\
  ~ count (in_minute_window one_evening)
      (accepted (fst (calls (init (-1) 10) [one_evening])))
    <= requests_per_minute (init (-1) 10).
Proof.
  cbv zeta. split; [reflexivity|]. split; [reflexivity|].
  split; vm_compute; intros H; apply H; reflexivity.
Qed.

(** What the theorem asks of the clock is needed: were it to run backwards,
    here from 161s to 100s, a cap of 2 would let in three calls stamped in
    one window. *)
Example clock_running_backwards :
  let admitted :=
    accepted (fst (calls (init 2 10) [100000000; 100000000; 161000000; 100000000])) in
  admitted = [100000000; 100000000; 161000000; 100000000] /\
  count (in_minute_window 100000000) admitted = 3.
Proof. split; reflexivity. Qed.

Example calls_log :
  fst (calls (init 2 1) [0; 500000; 2000000; 2000001; 61000000]) =
    [(0, true); (500000, false); (2000000, true); (2000001, false); (61000000, true)].
Proof. reflexivity. Qed.

End RateLimiterCaps.

(** ** The blocking wait of the rate limiter *)

Section RateLimiterWait.
Import Time RateLimiter.
Local Open Scope Z_scope.

Lemma geb_false (a b : Z) : a < b -> (a >=? b) = false.
Proof. intros H. rewrite Z.geb_leb. apply Z.leb_gt. exact H. Qed.

Lemma geb_true (a b : Z) : b <= a -> (a >=? b) = true.
Proof. intros H. rewrite Z.geb_leb. apply Z.leb_le. exact H. Qed.

(** What an accepted call leaves behind: the new timestamp at the back of
    the deque, and both caps respected with it counted in. *)
Lemma can_make_request_accepted now self self' :
  can_make_request now self = (true, self') ->
  requests self' = popleft_stale (now - minute) (requests self) ++ [now] /\
  Z.of_nat (length (requests self')) <= requests_per_minute self /\
  recent_requests (now - second) (requests self') <= burst_limit self.
Proof.
  unfold can_make_request.
  set (q := popleft_stale (now - minute) (requests self)).
  destruct (Z.of_nat (length q) >=? requests_per_minute self) eqn:Hfull; [discriminate|].
  destruct (recent_requests (now - second) q >=? burst_limit self) eqn:Hb; [discriminate|].
  intros [= <-]. simpl. split; [reflexivity|]. split.
  - rewrite length_app. simpl. lia.
  - unfold recent_requests in *. rewrite List.filter_app, length_app. simpl.
    destruct (now - second <? now); simpl; lia.
Qed.

(** A rejected call only evicts. *)
Lemma can_make_request_rejected now self self' :
  can_make_request now self = (false, self') ->
  self' = mk (requests_per_minute self) (burst_limit self)
             (popleft_stale (now - minute) (requests self)).
Proof.
  unfold can_make_request.
  repeat match goal with |- context [if ?b then _ else _] => destruct b end;
    intros [= <-]; reflexivity.
Qed.

Lemma wait_if_needed_returns fuel : forall self c self' c',
  wait_if_needed fuel self c = Some (self', c') ->
  exists (n : nat) (before : t),
    (n < fuel)%nat /\
    sleeps c' = sleeps c ++ repeat retry_interval n /\
    reading c + Z.of_nat n * retry_interval <= reading c' /\
    requests_per_minute before = requests_per_minute self /\
    burst_limit before = burst_limit self /\
    (forall P : Z -> Prop, Forall P (requests self) -> Forall P (requests before)) /\
    can_make_request (reading c') before = (true, self').
Proof.
  induction fuel as [|fuel IH]; intros self c self' c' H; [discriminate|].
  simpl in H. unfold datetime_now in H.
  destruct (can_make_request (reading c) self) as [[|] self1] eqn:E.
  - injection H as <- <-. exists 0%nat, self. simpl.
    rewrite app_nil_r. repeat split; try lia; auto.
  - apply IH in H as (n & before & Hn & Hs & Hr & Hrpm & Hbl & Hkeep & Hacc).
    apply can_make_request_rejected in E. subst self1. simpl in *.
    exists (S n), before.
    split; [lia|]. split; [rewrite Hs, <- app_assoc; reflexivity|].
    split; [unfold retry_interval in *; lia|].
    split; [exact Hrpm|]. split; [exact Hbl|]. split; [|exact Hacc].
    intros P HP. apply Hkeep. apply popleft_stale_Forall. exact HP.
Qed.

(** More fuel does not change a result. *)
Lemma wait_if_needed_fuel fuel : forall self c r (extra : nat),
  wait_if_needed fuel self c = Some r ->
  wait_if_needed (fuel + extra) self c = Some r.
Proof.
  induction fuel as [|fuel IH]; intros self c r extra H; [discriminate|].
  simpl in *. destruct (can_make_request (datetime_now c) self) as [[|] self1].
  - exact H.
  - apply IH. exact H.
Qed.

(** With room for at least one request under both caps, the wait ends as
    soon as every recorded timestamp has left the 60-second window. *)
Lemma wait_if_needed_total fuel : forall self c,
  1 <= requests_per_minute self -> 1 <= burst_limit self ->
  Forall (fun r => r < reading c - minute + Z.of_nat fuel * retry_interval)
         (requests self) ->
  exists r, wait_if_needed (S fuel) self c = Some r.
Proof.
  induction fuel as [|fuel IH]; intros self c Hrpm Hbl Hold.
  - simpl. unfold datetime_now.
    assert (Hq : popleft_stale (reading c - minute) (requests self) = []).
    { revert Hold. generalize (requests self) as q.
      induction q as [|r q IHq]; intros Hq; [reflexivity|].
      simpl. apply List.Forall_cons_iff in Hq as [Hr Hq].
      replace (r <? reading c - minute) with true by (symmetry; apply Z.ltb_lt; lia).
      apply IHq. exact Hq. }
    unfold can_make_request. rewrite Hq. simpl.
    rewrite geb_false by lia. unfold recent_requests. simpl.
    rewrite geb_false by lia.
    eexists. reflexivity.
  - change (wait_if_needed (S (S fuel)) self c) with
      (let '(ok, self') := can_make_request (datetime_now c) self in
       if ok then Some (self', c)
       else wait_if_needed (S fuel) self' (time_sleep retry_interval c)).
    unfold datetime_now.
    destruct (can_make_request (reading c) self) as [[|] self1] eqn:E.
    + eexists. reflexivity.
    + apply can_make_request_rejected in E. subst self1.
      apply IH; simpl; try assumption.
      apply popleft_stale_Forall.
      eapply List.Forall_impl; [|exact Hold]. simpl. intros r Hr.
      unfold retry_interval in *. lia.
Qed.

Lemma wait_if_needed_live self c :
  1 <= requests_per_minute self -> 1 <= burst_limit self ->
  Forall (fun r => r <= reading c) (requests self) ->
  exists r, forall fuel, (602 <= fuel)%nat -> wait_if_needed fuel self c = Some r.
Proof.
  intros Hrpm Hbl Hpast.
  destruct (wait_if_needed_total 601 self c Hrpm Hbl) as [r Hr].
  { eapply List.Forall_impl; [|exact Hpast]. simpl. intros r Hr.
    unfold minute, retry_interval. lia. }
  exists r. intros fuel Hfuel.
  replace fuel with (602 + (fuel - 602))%nat by lia.
  apply wait_if_needed_fuel. exact Hr.
Qed.

Example wait_if_needed_retries_once :
  wait_if_needed 5 (mk 1 1 [0]) (mkClock 59950000 [] []) =
  Some (mk 1 1 [60050000], mkClock 60050000 [] [100000]).
Proof. reflexivity. Qed.

End RateLimiterWait.

(** ** The privacy filter *)

Section PrivacyFilter.
Import Str DataHandler.
Local Open Scope string_scope.

Lemma startswith_spec sub : forall s,
  startswith sub s = true <-> exists post, s = sub ++ post.
Proof.
  induction sub as [|a sub IH]; intros s; simpl.
  - split; [intros _; exists s; reflexivity|reflexivity].
  - destruct s as [|b s].
    + split; [discriminate|intros [post H]; discriminate].
    + rewrite andb_true_iff, Ascii.eqb_eq, IH. split.
      * intros [-> [post ->]]. exists post. reflexivity.
      * intros [post [= -> ->]]. split; [reflexivity|exists post; reflexivity].
Qed.

(** The substring test finds exactly the strings that split around [sub]. *)
Lemma contains_spec sub : forall s,
  contains sub s = true <-> exists pre post, s = pre ++ sub ++ post.
Proof.
  induction s as [|b s IH].
  - simpl. rewrite orb_false_r, startswith_spec. split.
    + intros [post H]. exists "", post. exact H.
    + intros (pre & post & H). destruct pre; [exists post; exact H|discriminate].
  - change (contains sub (String b s)) with
      (startswith sub (String b s) || contains sub s)%bool.
    rewrite orb_true_iff, startswith_spec, IH. split.
    + intros [[post H]|(pre & post & H)].
      * exists "", post. exact H.
      * exists (String b pre), post. simpl. rewrite H. reflexivity.
    + intros (pre & post & H). destruct pre as [|c pre]; simpl in H.
      * left. exists post. exact H.
      * right. injection H as _ H. exists pre, post. exact H.
Qed.

Lemma lower_char_idem c : lower_char (lower_char c) = lower_char c.
Proof. destruct c as [[] [] [] [] [] [] [] []]; reflexivity. Qed.

Lemma lower_idem s : lower (lower s) = lower s.
Proof.
  induction s as [|c s IH]; simpl; [reflexivity|].
  rewrite lower_char_idem, IH. reflexivity.
Qed.

(** C4. [is_safe_link] is a total function of the link alone; it answers
    true exactly when the lowercased link contains one of the four fixed
    markers, so whatever matches none of them is rejected; links that agree
    once lowercased get the same answer, as do a link and its lowercased
    form; the empty string is rejected. *)
Theorem is_safe_link_allowlist :
  allowed_domains =
    ["linkedin.com/in/"; "github.com/"; "scholar.google.com/"; "twitter.com/"] /\
  (forall link,
      is_safe_link link = true <->
      exists marker, In marker allowed_domains /\
        exists pre post, lower link = pre ++ marker ++ post) /\
  (forall link1 link2,
      lower link1 = lower link2 -> is_safe_link link1 = is_safe_link link2) /\
  (forall link, is_safe_link (lower link) = is_safe_link link) /\
  is_safe_link "" = false /\
  is_safe_link "LINKEDIN.com/in/jdoe" = true.
Proof.
  split; [reflexivity|]. split; [|split; [|split; [|split]]].
  - intros link. unfold is_safe_link. rewrite existsb_exists. split.
    + intros (marker & Hin & Hc). exists marker. split; [exact Hin|].
      apply contains_spec. exact Hc.
    + intros (marker & Hin & Hc). exists marker. split; [exact Hin|].
      apply contains_spec. exact Hc.
  - intros link1 link2 H. unfold is_safe_link. rewrite H. reflexivity.
  - intros link. unfold is_safe_link. rewrite lower_idem. reflexivity.
  - reflexivity.
  - reflexivity.
Qed.

Example is_safe_link_rejects_other_sites :
  is_safe_link "badsite.com/jane" = false /\
  is_safe_link "https://GitHub.com/janedoe" = true /\
  is_safe_link "linkedin.com/company/acme" = false.
Proof. repeat split. Qed.

End PrivacyFilter.

(** ** The record identifier *)

Section Sha256Checks.
Import Sha256.

Example constants_of_the_standard :
  length K = 64%nat /\ nth 0 K 0%Z = 0x428a2f98%Z /\ nth 63 K 0%Z = 0xc67178f2%Z /\
  wa H0 = 0x6a09e667%Z /\ wh H0 = 0x5be0cd19%Z.
Proof. vm_compute. repeat split. Qed.

(** The test vectors of FIPS 180-4 for the empty message, for "abc" and for
    a message of two blocks. *)
Example sha256_empty :
  hexdigest (sha256 (Str.encode "")) =
  "e3b0c44298fc1c149afbf4c8996fb92427ae41e4649b934ca495991b7852b855"%string.
Proof. vm_compute. reflexivity. Qed.

Example sha256_abc :
  hexdigest (sha256 (Str.encode "abc")) =
  "ba7816bf8f01cfea414140de5dae2223b00361a396177a9cb410ff61f20015ad"%string.
Proof. vm_compute. reflexivity. Qed.

Example sha256_two_blocks :
  hexdigest (sha256 (Str.encode
    "abcdbcdecdefdefgefghfghighijhijkijkljklmklmnlmnomnopnopq")) =
  "248d6a61d20638b8e5c026930c3e6039a33ce45964ff2167f6ecedd419db06c1"%string.
Proof. vm_compute. reflexivity. Qed.

Lemma hexdigest_length h : String.length (hexdigest h) = 64%nat.
Proof. reflexivity. Qed.

End Sha256Checks.

Section RecordIdentifier.
Import DataHandler.

Lemma take_length n : forall s,
  (n <= String.length s)%nat -> String.length (Str.take n s) = n.
Proof.
  induction n as [|n IH]; intros s H; [reflexivity|].
  destruct s as [|c s]; simpl in *; [lia|].
  rewrite IH; [reflexivity|lia].
Qed.

Lemma generate_id_length self data : String.length (generate_id self data) = 12%nat.
Proof.
  unfold generate_id. apply take_length. rewrite hexdigest_length. lia.
Qed.

(** C5. [generate_id] is a function of the identity triple alone: two
    records with the same name, professional title and company get the same
    identifier, whatever their education, public links and last update are
    and whichever handler computes it; the identifier is 12 characters
    long. *)
Theorem generate_id_identity_triple (self1 self2 : DataHandler.t) (d1 d2 : PersonData) :
  name d1 = name d2 ->
  professional_title d1 = professional_title d2 ->
  company d1 = company d2 ->
  generate_id self1 d1 = generate_id self2 d2 /\
  String.length (generate_id self1 d1) = 12%nat /\
  (forall edu links stamp,
      generate_id self1
        (mkPersonData (name d1) (professional_title d1) (company d1) edu links stamp) =
      generate_id self1 d1).
Proof.
  intros Hn Ht Hc. split; [|split].
  - unfold generate_id. rewrite Hn, Ht, Hc. reflexivity.
  - apply generate_id_length.
  - intros edu links stamp. reflexivity.
Qed.

(** Two records of one person that differ in every other field. *)
Lemma generate_id_identity_triple_witness :
  let d1 := mkPersonData "Jane Doe" None None None None None in
  let d2 := mkPersonData "Jane Doe" None None (Some ["MIT"%string])
              (Some ["github.com/janedoe"%string])
              (Some "2026-11-03T17:29:00.123456"%string) in
  generate_id (mk "data/") d1 = generate_id (mk "archive/") d2 /\
  String.length (generate_id (mk "data/") d1) = 12%nat /\
  (forall edu links stamp,
      generate_id (mk "data/")
        (mkPersonData (name d1) (professional_title d1) (company d1) edu links stamp) =
      generate_id (mk "data/") d1).
Proof.
  intros d1 d2.
  apply (generate_id_identity_triple (mk "data/") (mk "archive/") d1 d2);
    reflexivity.
Defined.

(** The identifiers that CPython computes for these triples. *)
Example generate_id_examples :
  generate_id (mk "data/") (mkPersonData "Jane Doe" None None None None None) =
    "2eece3600413"%string /\
  generate_id (mk "data/")
    (mkPersonData (String (ascii_of_nat 74) (String (ascii_of_nat 111)
       (String (ascii_of_nat 115) (String (ascii_of_nat 233) EmptyString))))
       (Some "Engineer"%string) (Some "Acme"%string) None None None) =
    "b3a90fcea41d"%string.
Proof. split; vm_compute; reflexivity. Qed.

End RecordIdentifier.

(** ** The record store *)

Section RecordStore.
Import DataHandler.
Local Open Scope string_scope.

(** C6. In the file as it is, [DataHandler(storage_path)] raises: the name
    [os] that [ensure_storage_exists] looks up is bound nowhere, so the
    constructor ends in a [NameError] and creates no directory. *)
Theorem DataHandler_init_raises (path : string) (w : World) :
  DataHandler.init as_written path w = Raise (NameError "os") w.
Proof. reflexivity. Qed.

(** With [os] bound the constructor does what is expected of it wherever
    the file system lets the directory be made. *)
Lemma DataHandler_init_with_os (refused : gset string) (path : string) (w : World) :
  path ∉ refused ->
  exists w',
    DataHandler.init (mkBindings (Some (Posix.os_on refused)) None None None) path w =
      Return (mk path) w' /\
    path ∈ dirs w'.
Proof.
  intros Hfree. eexists. split.
  - unfold DataHandler.init, ensure_storage_exists, bind, global. simpl.
    unfold Posix.makedirs_exist_ok, ret. rewrite decide_False by exact Hfree.
    reflexivity.
  - simpl. set_solver.
Qed.

(** C8. In the file as it is, [save_person_data] stores nothing and returns
    no identifier: after the identifier and the sanitized copy are computed,
    the lookup of [os] for [os.path.join] raises [NameError], and the file
    system is as it was. *)
Theorem save_person_data_raises (self : DataHandler.t) (data : PersonData) (w : World) :
  save_person_data as_written self data w = Raise (NameError "os") w.
Proof. reflexivity. Qed.

Lemma sanitize_data_safe self data w :
  exists links,
    returned (sanitize_data self data w) =
      Some (mkPersonData (name data) (professional_title data) (company data)
              (education data) (Some links)
              (Some (Time.isoformat (Time.reading (clock w))))) /\
    forallb is_safe_link links = true /\
    links = List.filter is_safe_link (or_empty (public_links data)).
Proof.
  eexists. split; [reflexivity|]. split; [|reflexivity].
  apply forallb_forall. intros link Hin. apply List.filter_In in Hin. tauto.
Qed.

(** With [os] bound, [save_person_data] does store the sanitized copy under
    the identifier and returns the identifier, and a later save under the
    same identifier replaces the file. *)
Lemma save_person_data_with_os (m : OsModule) (b : Bindings) self data w :
  os b = Some m ->
  let file_path := path_join m (storage_path self) (generate_id self data ++ ".json") in
  file_path ∉ unwritable w ->
  exists stored w',
    save_person_data b self data w = Return (generate_id self data) w' /\
    files w' = <[file_path := stored]> (files w) /\
    returned (sanitize_data self data w) = Some stored /\
    forallb is_safe_link (or_empty (public_links stored)) = true /\
    last_updated stored = Some (Time.isoformat (Time.reading (clock w))).
Proof.
  intros Hos file_path Hw.
  destruct (sanitize_data_safe self data w) as (links & Hs & Hsafe & ->).
  eexists. eexists. split; [|split; [|split; [exact Hs|split]]].
  - unfold save_person_data, bind, global. simpl. rewrite Hos. simpl.
    unfold write_json. fold file_path. rewrite decide_False by exact Hw.
    reflexivity.
  - reflexivity.
  - exact Hsafe.
  - reflexivity.
Qed.

End RecordStore.

(** ** The crawl orchestrator *)

Section Orchestrator.
Import EnhancedWebCrawler.
Local Open Scope string_scope.

(** In a ready world the wait for a permit returns, leaves the world ready,
    and touches nothing but the limiter and the clock. *)
Lemma wait_if_needed_ready (fuel : nat) (w : World) :
  ready w -> (602 <= fuel)%nat ->
  exists l c,
    wait_if_needed fuel w = Return tt (set_clock c (set_limiter l w)) /\
    ready (set_clock c (set_limiter l w)).
Proof.
  intros (Hrpm & Hbl & Hpast) Hfuel.
  destruct (wait_if_needed_live (limiter w) (clock w) Hrpm Hbl Hpast) as [[l c] Hr].
  specialize (Hr fuel Hfuel).
  exists l, c. split.
  - unfold wait_if_needed. rewrite Hr. reflexivity.
  - apply wait_if_needed_returns in Hr
      as (n & before & _ & _ & Hc & Hrpm' & Hbl' & Hkeep & Hacc).
    pose proof (can_make_request_config (Time.reading c) before) as [C1 C2].
    rewrite Hacc in C1, C2. simpl in C1, C2.
    apply can_make_request_accepted in Hacc as (Hq & _ & _).
    unfold ready. simpl. split; [lia|]. split; [lia|].
    rewrite Hq. apply List.Forall_app. split.
    + apply popleft_stale_Forall. apply Hkeep.
      eapply List.Forall_impl; [|exact Hpast]. simpl. intros r Hr.
      unfold RateLimiter.retry_interval in Hc. lia.
    + constructor; [lia|constructor].
Qed.

(** The search is the wait for its permit, the lookup on LinkedIn, and what
    follows it. *)
Lemma search_person_steps (fuel : nat) (b : Bindings) (self : EnhancedWebCrawler.t)
    (name : string) (w : World) :
  search_person fuel b self name w =
  (let* _ := wait_if_needed fuel in
   let* linkedin_info := search_linkedin fuel self name in
   after_linkedin b self name linkedin_info) w.
Proof.
  unfold search_person, gather, after_linkedin, bind.
  destruct (wait_if_needed fuel w) as [[] w1| |]; try reflexivity.
  destruct (search_linkedin fuel self name w1) as [info w2| |]; try reflexivity.
  destruct (getattr "search_github" (search_github b) w2) as [g w3| |]; try reflexivity.
  destruct (g name w3) as [gi w4| |]; try reflexivity.
  destruct (getattr "search_scholar" (search_scholar b) w4) as [sc w5| |]; try reflexivity.
  destruct (sc name w5) as [si w6| |]; try reflexivity.
  destruct (getattr "combine_info" (combine_info b) w6) as [co w7| |]; reflexivity.
Qed.

(** C1, as the code has it. A lookup that gets a status other than 200
    contributes nothing and stops nothing: [search_linkedin] returns the
    empty dictionary, and [search_person] goes on with it to the lookups,
    the merge and the save of lines 133-142. A lookup whose request raises is
    not recovered: the exception leaves [search_linkedin], and it leaves
    [search_person], which returns no record. *)
Theorem source_failure_propagates (fuel : nat) (b : Bindings)
    (self : EnhancedWebCrawler.t) (name : string) (w : World) :
  ready w -> (602 <= fuel)%nat ->
  let url := "https://www.google.com/search?q=site:linkedin.com/in/ " ++ name in
  (forall status body rest,
      http w = Response status body :: rest -> status <> 200%Z ->
      (exists w', search_linkedin fuel self name w = Return ∅ w' /\ http w' = rest) /\
      (exists w',
          search_person fuel b self name w = after_linkedin b self name ∅ w' /\
          http w' = rest /\ files w' = files w /\ dirs w' = dirs w)) /\
  (http w = [] \/ (exists rest, http w = NoResponse :: rest) ->
      (exists w', search_linkedin fuel self name w = Raise (RequestException url) w') /\
      (exists w', search_person fuel b self name w = Raise (RequestException url) w')).
Proof.
  intros Hready Hfuel url.
  destruct (wait_if_needed_ready fuel w Hready Hfuel) as (l1 & c1 & Hw1 & Hready1).
  set (w1 := set_clock c1 (set_limiter l1 w)) in *.
  destruct (wait_if_needed_ready fuel w1 Hready1 Hfuel) as (l2 & c2 & Hw2 & _).
  set (w2 := set_clock c2 (set_limiter l2 w1)) in *.
  assert (Hquiet : forall w0 l c status body rest,
             wait_if_needed fuel w0 = Return tt (set_clock c (set_limiter l w0)) ->
             http w0 = Response status body :: rest -> status <> 200%Z ->
             search_linkedin fuel self name w0 =
               Return ∅ (set_http rest (set_clock c (set_limiter l w0)))).
  { intros w0 l c status body rest Hw0 Hhttp Hstatus.
    unfold search_linkedin, bind. rewrite Hw0.
    unfold session_get. simpl. rewrite Hhttp.
    apply Z.eqb_neq in Hstatus. simpl. rewrite Hstatus. reflexivity. }
  split.
  - intros status body rest Hhttp Hstatus. split.
    + eexists. split; [apply (Hquiet w l1 c1 status body rest Hw1 Hhttp Hstatus)|].
      reflexivity.
    + exists (set_http rest w2). split; [|repeat split].
      rewrite search_person_steps. unfold bind at 1. rewrite Hw1.
      unfold bind at 1. fold w1.
      rewrite (Hquiet w1 l2 c2 status body rest Hw2 Hhttp Hstatus). reflexivity.
  - intros Hdown.
    assert (Hlink : forall w0 l c,
               wait_if_needed fuel w0 = Return tt (set_clock c (set_limiter l w0)) ->
               http w0 = http w ->
               exists w', search_linkedin fuel self name w0 = Raise (RequestException url) w').
    { intros w0 l c Hw0 Hsame. unfold search_linkedin, bind. rewrite Hw0.
      unfold session_get. simpl. rewrite Hsame.
      destruct Hdown as [-> | [rest ->]]; eexists; reflexivity. }
    split.
    + apply (Hlink w l1 c1 Hw1 eq_refl).
    + destruct (Hlink w1 l2 c2 Hw2 eq_refl) as [w' Hw'].
      exists w'. unfold search_person, gather, bind at 1 2. rewrite Hw1.
      fold w1. unfold bind at 1. rewrite Hw'. reflexivity.
Qed.

(** The theorem in two worlds, with every source in place: in one the
    network answers the first request with status 503, and the search goes
    on to return the record that the other sources fill; in the other it
    gives no response. *)
Lemma source_failure_propagates_witness :
  ((exists w',
       search_linkedin 602 a_crawler "Jane Doe" (fresh_world [Response 503 []]) =
         Return ∅ w' /\ http w' = []) /\
   (exists w',
       search_person 602 Scenario.bindings a_crawler "Jane Doe"
         (fresh_world [Response 503 []]) =
         after_linkedin Scenario.bindings a_crawler "Jane Doe" ∅ w' /\
       http w' = [] /\ files w' = files (fresh_world [Response 503 []]) /\
       dirs w' = dirs (fresh_world [Response 503 []]))) /\
  returned (search_person 602 Scenario.bindings a_crawler "Jane Doe"
              (fresh_world [Response 503 []])) =
    Some (mkPersonData "Jane Doe" None None None
            (Some ["github.com/janedoe"; "badsite.com/jane"]) None) /\
  ((exists w', search_linkedin 602 a_crawler "Jane Doe" (fresh_world [NoResponse]) =
               Raise (RequestException
                        ("https://www.google.com/search?q=site:linkedin.com/in/ "
                         ++ "Jane Doe")) w') /\
   (exists w', search_person 602 Scenario.bindings a_crawler "Jane Doe"
                 (fresh_world [NoResponse]) =
               Raise (RequestException
                        ("https://www.google.com/search?q=site:linkedin.com/in/ "
                         ++ "Jane Doe")) w')).
Proof.
  assert (Hready : forall replies, ready (fresh_world replies)).
  { intros replies. unfold ready. simpl. split; [lia|]. split; [lia|constructor]. }
  split; [|split].
  - apply (proj1 (source_failure_propagates 602 Scenario.bindings a_crawler "Jane Doe"
                    (fresh_world [Response 503 []]) (Hready _) (le_n _))
             503%Z [] []); [reflexivity|discriminate].
  - vm_compute. reflexivity.
  - apply (proj2 (source_failure_propagates 602 Scenario.bindings a_crawler "Jane Doe"
                    (fresh_world [NoResponse]) (Hready _) (le_n _))).
    right. exists []. reflexivity.
Defined.

(** Against C1 as stated: the network refuses the first request, and
    [search_person] returns no record; it raises the exception of the
    request. This is so in the file as it is, and with every source in
    place. *)
Lemma search_person_aborted_by_source :
  returned (search_person 602 as_written a_crawler "Jane Doe"
              (fresh_world [NoResponse])) = None /\
  raised (search_person 602 as_written a_crawler "Jane Doe"
            (fresh_world [NoResponse])) =
    Some (RequestException
            "https://www.google.com/search?q=site:linkedin.com/in/ Jane Doe") /\
  returned (search_person 602 Scenario.bindings a_crawler "Jane Doe"
              (fresh_world [NoResponse])) = None /\
  raised (search_person 602 Scenario.bindings a_crawler "Jane Doe"
            (fresh_world [NoResponse])) =
    Some (RequestException
            "https://www.google.com/search?q=site:linkedin.com/in/ Jane Doe").
Proof. repeat split; vm_compute; reflexivity. Qed.

(** In the file as it is, a search whose request succeeds still returns no
    record: [search_person] goes on to call [self.search_github], which the
    class does not define. *)
Example search_person_as_written :
  raised (search_person 602 as_written a_crawler "Jane Doe"
            (fresh_world [Response 200 [Some "https://www.linkedin.com/in/janedoe"]])) =
    Some (AttributeError "search_github").
Proof. vm_compute. reflexivity. Qed.

Example parse_linkedin_results_examples :
  parse_linkedin_results
    [None; Some "https://example.com/"; Some "https://www.linkedin.com/in/janedoe";
     Some "https://www.linkedin.com/in/other"] =
    {[ "public_links" := ["https://www.linkedin.com/in/janedoe"] ]} /\
  parse_linkedin_results [None; Some "https://www.LinkedIn.com/in/janedoe"] = ∅.
Proof. split; vm_compute; reflexivity. Qed.

(** C3, as the code has it. The record that [search_person] returns is the
    merged record itself, as [gather] leaves it: its links are not filtered
    and its [last_updated] is not stamped. The sanitized record is another
    one, and it is what the file then holds. A failure of persistence is
    not recovered: when [save_person_data] raises, so does [search_person],
    and no record is returned. *)
Theorem search_person_returns_merged_record (fuel : nat) (b : Bindings)
    (self : EnhancedWebCrawler.t) (name : string) (w : World) :
  (forall r,
      returned (search_person fuel b self name w) = Some r ->
      exists w1 m stored,
        gather fuel b self name w = Return r w1 /\
        os b = Some m /\
        returned (DataHandler.sanitize_data (data_handler self) r w1) = Some stored /\
        final (search_person fuel b self name w) =
          Some (set_files
                  (<[path_join m (DataHandler.storage_path (data_handler self))
                       (DataHandler.generate_id (data_handler self) r ++ ".json") := stored]>
                     (files w1)) w1)) /\
  (forall r w1 e w2,
      gather fuel b self name w = Return r w1 ->
      DataHandler.save_person_data b (data_handler self) r w1 = Raise e w2 ->
      search_person fuel b self name w = Raise e w2).
Proof.
  split.
  - intros r Hr. unfold search_person in Hr |- *.
    unfold bind at 1 in Hr. unfold bind at 1.
    destruct (gather fuel b self name w) as [r1 w1| |]; try discriminate.
    unfold DataHandler.save_person_data, bind, global in Hr |- *. simpl in Hr |- *.
    destruct (os b) as [m|]; simpl in Hr |- *; [|discriminate].
    unfold DataHandler.write_json in Hr |- *.
    destruct (decide _) as [|Hfree]; simpl in Hr |- *; [discriminate|].
    injection Hr as <-.
    exists w1, m. eexists. repeat split.
  - intros r w1 e w2 Hg Hs. unfold search_person, bind at 1. rewrite Hg.
    unfold bind. rewrite Hs. reflexivity.
Qed.

(** The end-to-end scenario of the spec: the returned record is the merged
    one, with the link of the site that is not allowed. *)
Lemma search_person_returns_merged_record_witness :
  let r := mkPersonData "Jane Doe" None None None
             (Some ["github.com/janedoe"; "badsite.com/jane"]) None in
  let w := fresh_world [Response 404 []] in
  exists w1 m stored,
    gather 602 Scenario.bindings a_crawler "Jane Doe" w = Return r w1 /\
    os Scenario.bindings = Some m /\
    returned (DataHandler.sanitize_data (data_handler a_crawler) r w1) = Some stored /\
    final (search_person 602 Scenario.bindings a_crawler "Jane Doe" w) =
      Some (set_files
              (<[path_join m (DataHandler.storage_path (data_handler a_crawler))
                   (DataHandler.generate_id (data_handler a_crawler) r ++ ".json") := stored]>
                 (files w1)) w1).
Proof.
  intros r w.
  apply (proj1 (search_person_returns_merged_record 602 Scenario.bindings a_crawler
                  "Jane Doe" w) r).
  vm_compute. reflexivity.
Defined.

(** Against C3 as stated: in the end-to-end scenario of the spec the record
    returned holds a link that the filter rejects, and no [last_updated];
    the record in the file is the sanitized one. And when persistence
    fails, here as it does in the file as it is, no record is returned. *)
Lemma search_person_returns_unsanitized :
  returned (search_person 602 Scenario.bindings a_crawler "Jane Doe"
              (fresh_world [Response 404 []])) =
    Some (mkPersonData "Jane Doe" None None None
            (Some ["github.com/janedoe"; "badsite.com/jane"]) None) /\
  DataHandler.is_safe_link "badsite.com/jane" = false /\
  (final (search_person 602 Scenario.bindings a_crawler "Jane Doe"
            (fresh_world [Response 404 []])) ≫= fun w' =>
     files w' !! "data/2eece3600413.json") =
    Some (mkPersonData "Jane Doe" None None None
            (Some ["github.com/janedoe"]) (Some "2026-11-03T17:29:00.123456")) /\
  returned (search_person 602 Scenario.bindings_without_os a_crawler "Jane Doe"
              (fresh_world [Response 404 []])) = None /\
  raised (search_person 602 Scenario.bindings_without_os a_crawler "Jane Doe"
            (fresh_world [Response 404 []])) = Some (NameError "os").
Proof. repeat split; vm_compute; reflexivity. Qed.

End Orchestrator.

(** ** The entry point *)

Section EntryPoint.
Import Main.
Local Open Scope string_scope.

Lemma truthy_nonempty (v : string) : v <> "" -> truthy (Some v) = true.
Proof. destruct v; [congruence|reflexivity]. Qed.

(** C10, as the code has it. When the three variables hold non-empty values
    once [load_dotenv] has run, [main] raises [TypeError] where it calls
    [EnhancedWebCrawler] with the keyword [google_api_key], which
    [__init__] has no parameter for; the world is then as [load_dotenv] left
    it: no bot was made or run and nothing was printed, whatever the
    collaborators and the other bindings are. *)
Theorem main_raises_TypeError (ext : Collaborators) (b : Bindings) (w : World)
    (token key cx : string) :
  load_dotenv ext (environ w) !! "TELEGRAM_BOT_TOKEN" = Some token -> token <> "" ->
  load_dotenv ext (environ w) !! "GOOGLE_API_KEY" = Some key -> key <> "" ->
  load_dotenv ext (environ w) !! "SEARCH_ENGINE_ID" = Some cx -> cx <> "" ->
  EnhancedWebCrawler.init_parameters = [] /\
  main ext b w =
    Raise (TypeError "google_api_key") (set_environ (load_dotenv ext (environ w)) w).
Proof.
  intros Ht Htn Hk Hkn Hc Hcn. split; [reflexivity|].
  unfold main. cbn [environ set_environ]. rewrite Ht, Hk, Hc.
  cbn [forallb]. rewrite !truthy_nonempty by assumption. reflexivity.
Qed.

(** The theorem in an environment with the three variables in it. *)
Lemma main_raises_TypeError_witness :
  EnhancedWebCrawler.init_parameters = [] /\
  main some_collaborators with_os_imported (set_environ full_environ (fresh_world [])) =
    Raise (TypeError "google_api_key")
          (set_environ
             (load_dotenv some_collaborators
                (environ (set_environ full_environ (fresh_world []))))
             (set_environ full_environ (fresh_world []))).
Proof.
  apply (main_raises_TypeError some_collaborators with_os_imported
           (set_environ full_environ (fresh_world [])) "123:abc" "key" "cx");
    try (vm_compute; reflexivity); discriminate.
Defined.

(** Against C10 as stated: the three variables are set, one of them to the
    empty string, and [main] raises [ValueError], not [TypeError]: the guard
    of line 15 takes an empty value for a missing one. *)
Lemma main_raises_ValueError_on_empty_value :
  let env : gmap string string :=
    {[ "TELEGRAM_BOT_TOKEN" := ""; "GOOGLE_API_KEY" := "key"; "SEARCH_ENGINE_ID" := "cx" ]} in
  env !! "TELEGRAM_BOT_TOKEN" = Some "" /\
  env !! "GOOGLE_API_KEY" = Some "key" /\
  env !! "SEARCH_ENGINE_ID" = Some "cx" /\
  raised (main some_collaborators as_written (set_environ env (fresh_world []))) =
    Some (ValueError "Missing required API keys in environment variables").
Proof. repeat split; vm_compute; reflexivity. Qed.

(** Were [__init__] to accept the keywords, the constructor would still
    raise in the file as it is, for want of [os]. *)
Example EnhancedWebCrawler_init_as_written :
  raised (EnhancedWebCrawler.new [] as_written (fresh_world [])) = Some (NameError "os").
Proof. reflexivity. Qed.

End EntryPoint.

(** ** The rate limiter under concurrent callers *)

Section CriticalSection.
Import RateLimiter Concurrent.
Local Open Scope Z_scope.

Lemma lock_inv_init rpm burst n : 0 <= rpm -> lock_inv rpm burst (init rpm burst n).
Proof.
  intros Hrpm.
  assert (Hentry : forall i p, repeat AtEntry n !! i = Some p -> p = AtEntry).
  { induction n as [|n IH]; intros [|i] p H; simpl in H; try discriminate.
    - congruence.
    - eapply IH. exact H. }
  split; simpl; try reflexivity; try lia.
  - intros i p H Hcs. apply Hentry in H. subst p. discriminate.
  - intros i now H. apply Hentry in H. discriminate.
  - intros i now H. apply Hentry in H. discriminate.
Qed.

(** Looking a caller up after caller [i] moved to [p']. *)
Lemma lookup_moved (l : list pc) (i j : nat) (p p' q : pc) :
  l !! i = Some p ->
  <[i := p']> l !! j = Some q ->
  (j = i /\ q = p') \/ (j <> i /\ l !! j = Some q).
Proof.
  intros Hi Hj. destruct (decide (i = j)) as [<-|Hne].
  - left. rewrite list_lookup_insert_eq in Hj by (eapply lookup_lt_Some; exact Hi).
    split; congruence.
  - right. rewrite list_lookup_insert_ne in Hj by exact Hne. auto.
Qed.

(** While caller [i] is in the critical section, no other caller is. *)
Lemma lock_inv_alone rpm burst s i p j q :
  lock_inv rpm burst s ->
  callers s !! i = Some p -> in_critical_section p = true ->
  callers s !! j = Some q -> in_critical_section q = true ->
  j = i.
Proof.
  intros Hinv Hi Hp Hj Hq.
  pose proof (inv_holder _ _ _ Hinv i p Hi Hp) as H1.
  pose proof (inv_holder _ _ _ Hinv j q Hj Hq) as H2.
  congruence.
Qed.

Ltac moved H Hi :=
  let Hj := fresh "Hj" in
  let Hq := fresh "Hq" in
  destruct (lookup_moved _ _ _ _ _ _ Hi H) as [[-> Hq]|[Hj H']];
  [try discriminate Hq; try (injection Hq as <-);
   try (subst; simpl in *; discriminate) | ].

Lemma lock_inv_fire rpm burst i s s' :
  lock_inv rpm burst s -> fire i s = Some s' -> lock_inv rpm burst s'.
Proof.
  intros Hinv Hfire. unfold fire in Hfire.
  destruct (callers s !! i) as [p|] eqn:Hi; [|discriminate].
  pose proof (inv_rpm _ _ _ Hinv) as Hrpm.
  pose proof (inv_bl _ _ _ Hinv) as Hbl.
  pose proof (inv_cap _ _ _ Hinv) as Hcap.
  assert (Hother : forall j q, in_critical_section p = true -> j <> i ->
                     callers s !! j = Some q -> in_critical_section q = false).
  { intros j q Hp Hne Hj. destruct (in_critical_section q) eqn:Hq; [|reflexivity].
    exfalso. apply Hne. eapply lock_inv_alone; eauto. }
  destruct p as [|now|now|now|now|now|answer].
  - (* line 18: the clock is read *)
    injection Hfire as <-. split; simpl; try assumption.
    + intros j q H Hcs. moved H Hi. eapply inv_holder; eauto.
    + intros j now' H. moved H Hi. eapply inv_checked_minute; eauto.
    + intros j now' H. moved H Hi. eapply inv_checked_burst; eauto.
  - (* line 21: the lock is taken *)
    destruct (holder s) as [h|] eqn:Hh; [discriminate|].
    injection Hfire as <-. split; simpl; try assumption.
    + intros j q H Hcs. moved H Hi; [reflexivity|].
      pose proof (inv_holder _ _ _ Hinv j q H' Hcs). congruence.
    + intros j now' H. moved H Hi. eapply inv_checked_minute; eauto.
    + intros j now' H. moved H Hi. eapply inv_checked_burst; eauto.
  - (* lines 23-24: one turn of the eviction loop *)
    pose proof (inv_holder _ _ _ Hinv i _ Hi eq_refl) as Hh.
    assert (Hgo : forall q,
               (Z.of_nat (length q) <= Z.of_nat (length (requests (shared s)))) ->
               forall p', (p' = Evicting now \/ p' = CheckingMinute now) ->
               lock_inv rpm burst (goes i p' q s)).
    { intros q Hlen p' Hp'. split; simpl; try assumption; try lia.
      - intros j q0 H Hcs. moved H Hi; [exact Hh|]. eapply inv_holder; eauto.
      - intros j now' H. moved H Hi; [destruct Hp'; subst; discriminate|].
        pose proof (Hother j _ eq_refl Hj H'). discriminate.
      - intros j now' H. moved H Hi; [destruct Hp'; subst; discriminate|].
        pose proof (Hother j _ eq_refl Hj H'). discriminate. }
    destruct (requests (shared s)) as [|r q'] eqn:Hq.
    + injection Hfire as <-. apply Hgo; [simpl; lia|auto].
    + destruct (r <? now - minute); injection Hfire as <-;
        (apply Hgo; [simpl; lia|auto]).
  - (* line 27: the minute cap *)
    pose proof (inv_holder _ _ _ Hinv i _ Hi eq_refl) as Hh.
    destruct (Z.of_nat (length (requests (shared s))) >=? requests_per_minute (shared s))
      eqn:Hfull; injection Hfire as <-; split; simpl; try assumption.
    + intros j q H Hcs. moved H Hi.
      pose proof (Hother j _ eq_refl Hj H'). congruence.
    + intros j now' H. moved H Hi.
      pose proof (Hother j _ eq_refl Hj H'). discriminate.
    + intros j now' H. moved H Hi.
      pose proof (Hother j _ eq_refl Hj H'). discriminate.
    + intros j q H Hcs. moved H Hi; [exact Hh|]. eapply inv_holder; eauto.
    + intros j now' H. moved H Hi.
      * rewrite Z.geb_leb in Hfull. apply Z.leb_gt in Hfull. lia.
      * pose proof (Hother j _ eq_refl Hj H'). discriminate.
    + intros j now' H. moved H Hi.
      pose proof (Hother j _ eq_refl Hj H'). discriminate.
  - (* lines 31-33: the burst cap *)
    pose proof (inv_holder _ _ _ Hinv i _ Hi eq_refl) as Hh.
    pose proof (inv_checked_minute _ _ _ Hinv i _ Hi) as Hroom.
    destruct (recent_requests (now - second) (requests (shared s)) >=? burst_limit (shared s))
      eqn:Hfull; injection Hfire as <-; split; simpl; try assumption.
    + intros j q H Hcs. moved H Hi.
      pose proof (Hother j _ eq_refl Hj H'). congruence.
    + intros j now' H. moved H Hi.
      pose proof (Hother j _ eq_refl Hj H'). discriminate.
    + intros j now' H. moved H Hi.
      pose proof (Hother j _ eq_refl Hj H'). discriminate.
    + intros j q H Hcs. moved H Hi; [exact Hh|]. eapply inv_holder; eauto.
    + intros j now' H. moved H Hi.
      pose proof (Hother j _ eq_refl Hj H'). discriminate.
    + intros j now' H. moved H Hi.
      * rewrite Z.geb_leb in Hfull. apply Z.leb_gt in Hfull. split; [exact Hroom|lia].
      * pose proof (Hother j _ eq_refl Hj H'). discriminate.
  - (* line 36: the permit is recorded *)
    pose proof (inv_checked_burst _ _ _ Hinv i _ Hi) as [Hroom _].
    injection Hfire as <-. split; simpl; try assumption.
    + intros j q H Hcs. moved H Hi.
      pose proof (Hother j _ eq_refl Hj H'). congruence.
    + intros j now' H. moved H Hi.
      pose proof (Hother j _ eq_refl Hj H'). discriminate.
    + intros j now' H. moved H Hi.
      pose proof (Hother j _ eq_refl Hj H'). discriminate.
    + rewrite length_app. simpl. lia.
  - discriminate.
Qed.

Lemma lock_inv_run rpm burst schedule : forall s s',
  lock_inv rpm burst s -> run schedule s = Some s' -> lock_inv rpm burst s'.
Proof.
  induction schedule as [|a rest IH]; intros s s' Hinv Hrun; simpl in Hrun.
  - injection Hrun as <-. exact Hinv.
  - destruct (act a s) as [s1|] eqn:Hact; [|discriminate].
    apply (IH s1); [|exact Hrun].
    destruct a as [d|i]; simpl in Hact.
    + injection Hact as <-. destruct Hinv. split; simpl; assumption.
    + eapply lock_inv_fire; eauto.
Qed.

(** C7, as the code has it. [now] is computed before the lock is taken; the
    rest of [can_make_request], from the eviction to the recording of the
    permit, runs with the lock held. So in every state that callers reach
    from a new limiter, by any interleaving: at most one caller is between
    lines 23 and 36, and it holds the lock; a caller about to record its
    permit has room under both caps in the deque as it is at that moment,
    with every permit recorded before counted in; and the deque never holds
    more than [requests_per_minute] entries. *)
Theorem check_and_record_under_lock (rpm burst : Z) (n : nat)
    (schedule : list action) (s : state) :
  0 <= rpm ->
  run schedule (init rpm burst n) = Some s ->
  (forall i j p q,
      callers s !! i = Some p -> in_critical_section p = true ->
      callers s !! j = Some q -> in_critical_section q = true ->
      i = j /\ holder s = Some i) /\
  (forall i now,
      callers s !! i = Some (Appending now) ->
      Z.of_nat (length (requests (shared s))) < rpm /\
      recent_requests (now - second) (requests (shared s)) < burst) /\
  Z.of_nat (length (requests (shared s))) <= rpm.
Proof.
  intros Hrpm Hrun.
  pose proof (lock_inv_run rpm burst schedule _ _ (lock_inv_init rpm burst n Hrpm) Hrun)
    as Hinv.
  split; [|split].
  - intros i j p q Hi Hp Hj Hq. split.
    + symmetry. eapply lock_inv_alone; eauto.
    + eapply inv_holder; eauto.
  - intros i now Hi. eapply inv_checked_burst; eauto.
  - eapply inv_cap; eauto.
Qed.

(** The theorem along the interleaving [overtaking] of two callers. *)
Lemma check_and_record_under_lock_witness :
  (forall i j p q,
      callers overtaken !! i = Some p -> in_critical_section p = true ->
      callers overtaken !! j = Some q -> in_critical_section q = true ->
      i = j /\ holder overtaken = Some i) /\
  (forall i now,
      callers overtaken !! i = Some (Appending now) ->
      Z.of_nat (length (requests (shared overtaken))) < 60 /\
      recent_requests (now - second) (requests (shared overtaken)) < 10) /\
  Z.of_nat (length (requests (shared overtaken))) <= 60.
Proof.
  apply (check_and_record_under_lock 60 10 2 overtaking overtaken);
    [lia | reflexivity].
Defined.

(** With a cap of one request a minute and two callers racing for it, each
    interleaving below admits one of them and only one. *)
Example one_permit_two_callers :
  (callers <$> run [Run 0%nat; Run 1%nat; Run 0%nat; Run 0%nat; Run 0%nat; Run 0%nat;
                    Run 0%nat; Run 1%nat; Run 1%nat; Run 1%nat]
                   (init 1 10 2)) = Some [Returned true; Returned false] /\
  (callers <$> run [Run 0%nat; Run 1%nat; Run 1%nat; Run 1%nat; Run 1%nat; Run 1%nat;
                    Run 1%nat; Run 0%nat; Run 0%nat; Run 0%nat]
                   (init 1 10 2)) = Some [Returned false; Returned true] /\
  run [Run 0%nat; Run 1%nat; Run 0%nat; Run 1%nat] (init 1 10 2) = None.
Proof. repeat split. Qed.

(** In the model where all five steps are one critical section the deque is
    always in ascending order and never ahead of the clock. *)
Lemma monotonic_app (l1 l2 : list Z) :
  monotonic (l1 ++ l2) <->
  monotonic l1 /\ monotonic l2 /\ Forall (fun x => Forall (fun y => x <= y) l2) l1.
Proof.
  induction l1 as [|a l1 IH]; simpl.
  - split; [intros H; repeat split; [exact H|constructor]|tauto].
  - rewrite IH, List.Forall_app, List.Forall_cons_iff. tauto.
Qed.

Lemma ordered_tick d s :
  ordered s -> ordered (mkState (wall s + Z.of_N d) (shared s) (holder s) (callers s)).
Proof.
  unfold ordered. simpl. rewrite !monotonic_app. intros (H1 & _ & H3).
  split; [exact H1|]. split; [simpl; split; [constructor|exact I]|].
  eapply List.Forall_impl; [|exact H3]. simpl. intros x Hx.
  apply List.Forall_inv in Hx. constructor; [lia|constructor].
Qed.

Lemma ordered_can_make_request s :
  ordered s ->
  monotonic (requests (snd (can_make_request (wall s) (shared s))) ++ [wall s]).
Proof.
  unfold ordered. intros H.
  destruct (popleft_stale_split (wall s - minute) (requests (shared s)))
    as (stale & Hq & _).
  set (q := popleft_stale (wall s - minute) (requests (shared s))) in *.
  assert (Hkept : monotonic (q ++ [wall s])).
  { rewrite Hq, <- app_assoc in H. apply monotonic_app in H. tauto. }
  unfold can_make_request. fold q.
  repeat match goal with |- context [if ?b then _ else _] => destruct b end;
    simpl; try exact Hkept.
  apply monotonic_app. split; [exact Hkept|]. split; [simpl; split; [constructor|exact I]|].
  apply List.Forall_app. apply monotonic_app in Hkept as (_ & _ & Hle).
  split; [exact Hle|]. repeat constructor. lia.
Qed.

Lemma ordered_atomic_run schedule : forall s s',
  ordered s -> atomic_run schedule s = Some s' -> ordered s'.
Proof.
  induction schedule as [|a rest IH]; intros s s' Hord Hrun; simpl in Hrun.
  - injection Hrun as <-. exact Hord.
  - destruct (atomic_act a s) as [s1|] eqn:Hact; [|discriminate].
    apply (IH s1); [|exact Hrun].
    destruct a as [d|i]; simpl in Hact.
    + injection Hact as <-. apply ordered_tick. exact Hord.
    + unfold atomic_fire in Hact.
      destruct (callers s !! i) as [[| | | | | |]|]; try discriminate.
      pose proof (ordered_can_make_request s Hord) as Hnext.
      destruct (can_make_request (wall s) (shared s)) as [answer l].
      injection Hact as <-. exact Hnext.
Qed.

(** Against C7 as stated: [now] is computed outside the critical section.
    Between the moment a caller computes [now] and the moment it takes the
    lock another caller can run all of [can_make_request]; the deque then
    ends with the later timestamp in front of the earlier one, which no
    execution does in which the five steps are one critical section. *)
Lemma now_is_computed_outside_the_lock :
  run overtaking (init 60 10 2) = Some overtaken /\
  ~ atomic_reachable (init 60 10 2) overtaken.
Proof.
  split; [reflexivity|].
  intros [schedule Hrun].
  apply ordered_atomic_run in Hrun.
  - unfold ordered, overtaken in Hrun. simpl in Hrun.
    destruct Hrun as [Hle _]. apply List.Forall_inv in Hle. lia.
  - unfold ordered. simpl. split; [constructor|exact I].
Qed.

End CriticalSection.

(** * Further properties *)

(** ** The window of the rate limiter *)

Section RateLimiterWindow.
Import Time RateLimiter.
Local Open Scope Z_scope.

(** A property of the limiter and of the accepted timestamps that every
    call made at a later time keeps is kept by every run. *)
Lemma calls_invariant (I : Z -> t -> list Z -> Prop) :
  (forall c now self acc,
      c <= now -> I c self acc ->
      I now (snd (can_make_request now self))
        (if fst (can_make_request now self) then acc ++ [now] else acc)) ->
  forall ticks c self acc0 now,
    monotonic (c :: ticks ++ [now]) ->
    I c self acc0 ->
    I now (snd (calls self (ticks ++ [now])))
      (acc0 ++ accepted (fst (calls self (ticks ++ [now])))).
Proof.
  intros Hstep. induction ticks as [|t1 ticks IH]; intros c self acc0 now Hmono Hinv.
  - simpl in *. destruct Hmono as [Hc _]. apply List.Forall_inv in Hc.
    pose proof (Hstep c now self acc0 Hc Hinv) as H.
    destruct (can_make_request now self) as [ok self']. simpl in *.
    rewrite accepted_cons. destruct ok; simpl.
    + exact H.
    + unfold accepted. simpl. rewrite app_nil_r. exact H.
  - simpl in Hmono. destruct Hmono as [Hc Hrest].
    assert (Hct : c <= t1) by (apply List.Forall_inv in Hc; exact Hc).
    pose proof (Hstep c t1 self acc0 Hct Hinv) as H.
    change ((t1 :: ticks) ++ [now]) with (t1 :: (ticks ++ [now])).
    simpl. destruct (can_make_request t1 self) as [ok self']. simpl in H.
    specialize (IH t1 self' (if ok then acc0 ++ [t1] else acc0) now Hrest H).
    destruct (calls self' (ticks ++ [now])) as [log final]. simpl in *.
    rewrite accepted_cons. destruct ok; simpl.
    + rewrite <- app_assoc in IH. exact IH.
    + exact IH.
Qed.

Lemma filter_all (p : Z -> bool) (l : list Z) :
  Forall (fun x => p x = true) l -> List.filter p l = l.
Proof.
  induction 1 as [|x l Hx _ IH]; simpl; [reflexivity|]. rewrite Hx, IH. reflexivity.
Qed.

Lemma filter_filter_weaker (p q : Z -> bool) (l : list Z) :
  (forall x, p x = true -> q x = true) ->
  List.filter p (List.filter q l) = List.filter p l.
Proof.
  intros Hpq. induction l as [|x l IH]; simpl; [reflexivity|].
  destruct (q x) eqn:Hq; simpl.
  - rewrite IH. reflexivity.
  - destruct (p x) eqn:Hp; [apply Hpq in Hp; congruence|exact IH].
Qed.

Lemma monotonic_filter (p : Z -> bool) (l : list Z) :
  monotonic l -> monotonic (List.filter p l).
Proof.
  induction l as [|x l IH]; simpl; [auto|]. intros [Hle Hm].
  destruct (p x); simpl; [|auto]. split; [|auto].
  apply List.Forall_forall. intros y Hy. apply List.filter_In in Hy as [Hy _].
  rewrite List.Forall_forall in Hle. auto.
Qed.

(** On a deque in ascending order the eviction loop removes every stale
    timestamp, not only those of a prefix. *)
Lemma popleft_stale_sorted (minute_ago : Z) (q : list Z) :
  monotonic q ->
  popleft_stale minute_ago q = List.filter (fun r => minute_ago <=? r) q.
Proof.
  induction q as [|r q IH]; simpl; [reflexivity|]. intros [Hle Hm].
  destruct (r <? minute_ago) eqn:Hr.
  - apply Z.ltb_lt in Hr. replace (minute_ago <=? r) with false
      by (symmetry; apply Z.leb_gt; exact Hr). auto.
  - apply Z.ltb_ge in Hr. replace (minute_ago <=? r) with true
      by (symmetry; apply Z.leb_le; exact Hr).
    f_equal. symmetry. apply filter_all.
    eapply List.Forall_impl; [|exact Hle]. simpl. intros y Hy. apply Z.leb_le. lia.
Qed.

(** X1. Under a clock that never runs backwards, after every call the deque
    is exactly the accepted timestamps of the last 60 seconds, in the order
    they were accepted, which is ascending: nothing stale is left in it and
    nothing recent is missing from it. *)
Theorem deque_is_the_last_minute (rpm burst : Z) (before : list Z) (now : Z) :
  monotonic (before ++ [now]) ->
  let log := fst (calls (init rpm burst) (before ++ [now])) in
  let final := snd (calls (init rpm burst) (before ++ [now])) in
  requests final = List.filter (fun ts => now - minute <=? ts) (accepted log) /\
  monotonic (requests final) /\
  Forall (fun ts => now - minute <= ts <= now) (requests final).
Proof.
  intros Hmono log final.
  set (Inv := fun (c : Z) (self : t) (acc : list Z) =>
              monotonic acc /\ Forall (fun ts => ts <= c) acc /\
              requests self = List.filter (fun ts => c - minute <=? ts) acc).
  assert (Hstep : forall c now self acc,
             c <= now -> Inv c self acc ->
             Inv now (snd (can_make_request now self))
               (if fst (can_make_request now self) then acc ++ [now] else acc)).
  { clear. intros c now self acc Hc (Hm & Hpast & Hq).
    assert (Hevict : popleft_stale (now - minute) (requests self) =
                     List.filter (fun ts => now - minute <=? ts) acc).
    { rewrite popleft_stale_sorted by (rewrite Hq; apply monotonic_filter; exact Hm).
      rewrite Hq. apply filter_filter_weaker.
      intros x Hx. apply Z.leb_le in Hx. apply Z.leb_le. lia. }
    assert (Hpast' : Forall (fun ts => ts <= now) acc).
    { eapply List.Forall_impl; [|exact Hpast]. simpl. intros; lia. }
    unfold can_make_request. rewrite Hevict.
    destruct (Z.of_nat (length _) >=? _); simpl;
      [split; [exact Hm|split; [exact Hpast'|reflexivity]]|].
    destruct (recent_requests _ _ >=? _); simpl;
      [split; [exact Hm|split; [exact Hpast'|reflexivity]]|].
    split; [|split].
    - apply monotonic_app. split; [exact Hm|]. split; [simpl; split; [constructor|exact Logic.I]|].
      eapply List.Forall_impl; [|exact Hpast']. simpl. intros x Hx.
      constructor; [exact Hx|constructor].
    - apply List.Forall_app. split; [exact Hpast'|]. constructor; [lia|constructor].
    - rewrite List.filter_app. simpl.
      replace (now - minute <=? now) with true
        by (symmetry; apply Z.leb_le; unfold minute; lia).
      reflexivity. }
  set (c0 := hd now before).
  assert (Hm0 : monotonic (c0 :: before ++ [now])).
  { split; [|exact Hmono]. destruct before as [|b before]; simpl in *.
    - constructor; [subst c0; simpl; lia|constructor].
    - subst c0. simpl. constructor; [lia|]. tauto. }
  assert (H0 : Inv c0 (init rpm burst) []).
  { repeat split; constructor. }
  pose proof (calls_invariant Inv Hstep before c0 (init rpm burst) [] now Hm0 H0)
    as (Hm & Hpast & Hq).
  simpl in Hm, Hpast, Hq. fold log in Hm, Hpast, Hq. fold final in Hq.
  split; [exact Hq|]. split.
  - rewrite Hq. apply monotonic_filter. exact Hm.
  - rewrite Hq. apply List.Forall_forall. intros ts Hts.
    apply List.filter_In in Hts as [Hin Hts]. apply Z.leb_le in Hts.
    rewrite List.Forall_forall in Hpast. specialize (Hpast ts Hin). lia.
Qed.

Lemma deque_is_the_last_minute_witness :
  let log := fst (calls (init 2 1) ([0; 500000; 2000000] ++ [61000000])) in
  let final := snd (calls (init 2 1) ([0; 500000; 2000000] ++ [61000000])) in
  requests final = List.filter (fun ts => 61000000 - minute <=? ts) (accepted log) /\
  monotonic (requests final) /\
  Forall (fun ts => 61000000 - minute <= ts <= 61000000) (requests final).
Proof.
  apply (deque_is_the_last_minute 2 1 [0; 500000; 2000000] 61000000).
  simpl. repeat constructor; lia.
Defined.

(** X2. When [burst_limit] is no smaller than [requests_per_minute] the
    burst check never decides: a call is accepted exactly when, the stale
    timestamps evicted, the deque holds fewer than [requests_per_minute]. *)
Theorem burst_check_is_vacuous (now : Z) (self : t) :
  requests_per_minute self <= burst_limit self ->
  fst (can_make_request now self) =
    (Z.of_nat (length (popleft_stale (now - minute) (requests self)))
       <? requests_per_minute self).
Proof.
  intros Hcaps. unfold can_make_request.
  set (q := popleft_stale (now - minute) (requests self)).
  destruct (Z.of_nat (length q) >=? requests_per_minute self) eqn:Hfull.
  - rewrite Z.geb_leb in Hfull. apply Z.leb_le in Hfull. simpl.
    symmetry. apply Z.ltb_ge. exact Hfull.
  - rewrite Z.geb_leb in Hfull. apply Z.leb_gt in Hfull.
    assert (Hrec : recent_requests (now - second) q <= Z.of_nat (length q)).
    { unfold recent_requests. pose proof (List.filter_length_le (fun req => now - second <? req) q). lia. }
    rewrite geb_false by lia. simpl. symmetry. apply Z.ltb_lt. exact Hfull.
Qed.

Lemma burst_check_is_vacuous_witness :
  fst (can_make_request 100 (mk 2 2 [10; 20])) =
    (Z.of_nat (length (popleft_stale (100 - minute) (requests (mk 2 2 [10; 20]))))
       <? requests_per_minute (mk 2 2 [10; 20])).
Proof. apply (burst_check_is_vacuous 100 (mk 2 2 [10; 20])). simpl. lia. Defined.

(** X3. After 60 seconds without an accepted call the limiter is as good as
    new: with room for one request under each cap, a call made when every
    recorded timestamp is more than a minute old is accepted, and the deque
    is left holding that call alone. *)
Theorem silence_restores_capacity (now : Z) (self : t) :
  1 <= requests_per_minute self -> 1 <= burst_limit self ->
  Forall (fun ts => ts < now - minute) (requests self) ->
  can_make_request now self =
    (true, mk (requests_per_minute self) (burst_limit self) [now]).
Proof.
  intros Hrpm Hbl Hold.
  assert (Hq : popleft_stale (now - minute) (requests self) = []).
  { revert Hold. generalize (requests self) as q.
    induction q as [|r q IHq]; intros Hq; [reflexivity|].
    simpl. apply List.Forall_cons_iff in Hq as [Hr Hq].
    replace (r <? now - minute) with true by (symmetry; apply Z.ltb_lt; lia).
    apply IHq. exact Hq. }
  unfold can_make_request. rewrite Hq. simpl.
  rewrite geb_false by lia. unfold recent_requests. simpl.
  rewrite geb_false by lia. reflexivity.
Qed.

Lemma silence_restores_capacity_witness :
  can_make_request 61000000 (mk 2 1 [0; 500000]) = (true, mk 2 1 [61000000]).
Proof.
  apply (silence_restores_capacity 61000000 (mk 2 1 [0; 500000]));
    simpl; [lia | lia | repeat constructor; unfold minute; lia].
Defined.

End RateLimiterWindow.

(** ** Callers of the rate limiter, one alone and many together *)

Section CallersOfTheLimiter.
Import RateLimiter Concurrent.
Local Open Scope Z_scope.

Lemma run_app (l1 l2 : list action) (s : state) :
  run (l1 ++ l2) s = match run l1 s with Some s' => run l2 s' | None => None end.
Proof.
  revert s. induction l1 as [|a l1 IH]; intros s; simpl; [reflexivity|].
  destruct (act a s); [apply IH|reflexivity].
Qed.

Lemma run_steps (i : nat) (k1 k2 : nat) (s s1 : state) (r : option state) :
  run (repeat (Run i) k1) s = Some s1 ->
  run (repeat (Run i) k2) s1 = r ->
  run (repeat (Run i) (k1 + k2)) s = r.
Proof. intros H1 H2. rewrite repeat_app, run_app, H1. exact H2. Qed.

(** The eviction loop, run by the holder of the lock without interruption,
    does what [popleft_stale] does. *)
Lemma eviction_loop (w rpm burst now : Z) (i : nat) (cs : list pc) :
  (i < length cs)%nat ->
  forall q, exists k,
    run (repeat (Run i) k)
        (mkState w (mk rpm burst q) (Some i) (<[i := Evicting now]> cs)) =
    Some (mkState w (mk rpm burst (popleft_stale (now - minute) q)) (Some i)
                  (<[i := CheckingMinute now]> cs)).
Proof.
  intros Hi. induction q as [|r q IH].
  - exists 1%nat. simpl. unfold fire. simpl.
    rewrite list_lookup_insert_eq by exact Hi. unfold goes. simpl.
    rewrite list_insert_insert_eq. reflexivity.
  - simpl popleft_stale. destruct (r <? now - minute) eqn:Hr.
    + destruct IH as [k Hk]. exists (S k). simpl. unfold fire. simpl.
      rewrite list_lookup_insert_eq by exact Hi. rewrite Hr. unfold goes. simpl.
      rewrite list_insert_insert_eq. exact Hk.
    + exists 1%nat. simpl. unfold fire. simpl.
      rewrite list_lookup_insert_eq by exact Hi. rewrite Hr. unfold goes. simpl.
      rewrite list_insert_insert_eq. reflexivity.
Qed.

(** X5. A caller that finds the lock free and runs [can_make_request] line
    by line with no other caller in between ends in the state, and with the
    answer, of the function [can_make_request] taken at the time it
    started. *)
Theorem lone_caller_runs_can_make_request (s : state) (i : nat) :
  callers s !! i = Some AtEntry -> holder s = None ->
  exists k,
    run (repeat (Run i) k) s =
    Some (mkState (wall s) (snd (can_make_request (wall s) (shared s))) None
                  (<[i := Returned (fst (can_make_request (wall s) (shared s)))]>
                     (callers s))).
Proof.
  destruct s as [w [rpm burst q] h cs]. simpl. intros Hentry ->.
  pose proof (lookup_lt_Some _ _ _ Hentry) as Hi.
  destruct (eviction_loop w rpm burst w i cs Hi q) as [ke Hke].
  set (q' := popleft_stale (w - minute) q) in *.
  assert (Hstart : run (repeat (Run i) 2) (mkState w (mk rpm burst q) None cs) =
                   Some (mkState w (mk rpm burst q) (Some i) (<[i := Evicting w]> cs))).
  { simpl. unfold fire. simpl. rewrite Hentry. unfold goes. simpl.
    unfold fire. simpl. rewrite list_lookup_insert_eq by exact Hi.
    rewrite list_insert_insert_eq. reflexivity. }
  assert (Hend : exists k,
             run (repeat (Run i) k)
                 (mkState w (mk rpm burst q') (Some i) (<[i := CheckingMinute w]> cs)) =
             Some (mkState w (snd (can_make_request w (mk rpm burst q))) None
                     (<[i := Returned (fst (can_make_request w (mk rpm burst q)))]> cs))).
  { unfold can_make_request. simpl. fold q'.
    destruct (Z.of_nat (length q') >=? rpm) eqn:Hfull.
    - exists 1%nat. simpl. unfold fire. simpl.
      rewrite list_lookup_insert_eq by exact Hi. rewrite Hfull. unfold leaves. simpl.
      rewrite list_insert_insert_eq. reflexivity.
    - destruct (recent_requests (w - second) q' >=? burst) eqn:Hb.
      + exists 2%nat. simpl. unfold fire at 1. simpl.
        rewrite list_lookup_insert_eq by exact Hi. rewrite Hfull. unfold goes. simpl.
        unfold fire. simpl. rewrite list_lookup_insert_eq by (rewrite length_insert; exact Hi).
        rewrite Hb. unfold leaves. simpl. rewrite !list_insert_insert_eq. reflexivity.
      + exists 3%nat. simpl. unfold fire at 1. simpl.
        rewrite list_lookup_insert_eq by exact Hi. rewrite Hfull. unfold goes. simpl.
        unfold fire at 1. simpl.
        rewrite list_lookup_insert_eq by (rewrite length_insert; exact Hi).
        rewrite Hb. unfold goes. simpl. unfold fire. simpl.
        rewrite list_lookup_insert_eq by (rewrite !length_insert; exact Hi).
        unfold leaves. simpl. rewrite !list_insert_insert_eq. reflexivity. }
  destruct Hend as [kc Hkc].
  exists (2 + (ke + kc))%nat.
  eapply run_steps; [exact Hstart|]. eapply run_steps; [exact Hke|exact Hkc].
Qed.

Lemma lone_caller_runs_can_make_request_witness :
  exists k,
    run (repeat (Run 1%nat) k) (init 1 1 2) =
    Some (mkState (wall (init 1 1 2))
            (snd (can_make_request (wall (init 1 1 2)) (shared (init 1 1 2)))) None
            (<[1%nat := Returned (fst (can_make_request (wall (init 1 1 2))
                                         (shared (init 1 1 2))))]>
               (callers (init 1 1 2)))).
Proof. apply (lone_caller_runs_can_make_request (init 1 1 2) 1%nat); reflexivity. Defined.

Lemma holder_inside_fire (i : nat) (s s' : state) :
  holder_inside s -> fire i s = Some s' -> holder_inside s'.
Proof.
  intros Hinv Hfire. unfold fire in Hfire.
  destruct (callers s !! i) as [p|] eqn:Hi; [|discriminate].
  pose proof (lookup_lt_Some _ _ _ Hi) as Hlen.
  assert (Hkeep : forall p' q,
             (in_critical_section p = true -> in_critical_section p' = true) ->
             (in_critical_section p = false -> holder s <> Some i) ->
             holder_inside (goes i p' q s)).
  { intros p' q Hcs Hout h Hh. simpl in *.
    destruct (Hinv h Hh) as (ph & Hph & Hin).
    destruct (decide (h = i)) as [->|Hne].
    - exists p'. split; [apply list_lookup_insert_eq; exact Hlen|].
      apply Hcs. congruence.
    - exists ph. split; [|exact Hin]. rewrite list_lookup_insert_ne by congruence.
      exact Hph. }
  assert (Hnot : in_critical_section p = false -> holder s <> Some i).
  { intros Hp Hh. destruct (Hinv i Hh) as (p0 & Hp0 & Hin). congruence. }
  assert (Hfree : forall answer q, holder_inside (leaves i answer q s)).
  { intros answer q h Hh. discriminate. }
  destruct p as [|now|now|now|now|now|answer]; simpl in Hfire.
  - injection Hfire as <-. apply Hkeep; [discriminate|exact Hnot].
  - destruct (holder s) eqn:Hh; [discriminate|]. injection Hfire as <-.
    intros h Hh'. simpl in *. injection Hh' as <-.
    exists (Evicting now). split; [apply list_lookup_insert_eq; exact Hlen|reflexivity].
  - destruct (requests (shared s)) as [|r q]; [|destruct (r <? now - minute)];
      injection Hfire as <-; apply Hkeep; auto.
  - destruct (_ >=? _); injection Hfire as <-; [apply Hfree|apply Hkeep; auto].
  - destruct (_ >=? _); injection Hfire as <-; [apply Hfree|apply Hkeep; auto].
  - injection Hfire as <-. apply Hfree.
  - discriminate.
Qed.

Lemma holder_inside_run schedule : forall s s',
  holder_inside s -> run schedule s = Some s' -> holder_inside s'.
Proof.
  induction schedule as [|a rest IH]; intros s s' Hinv Hrun; simpl in Hrun.
  - injection Hrun as <-. exact Hinv.
  - destruct (act a s) as [s1|] eqn:Hact; [|discriminate].
    apply (IH s1); [|exact Hrun].
    destruct a as [d|i]; simpl in Hact.
    + injection Hact as <-. exact Hinv.
    + eapply holder_inside_fire; eauto.
Qed.

(** X6. Callers of one limiter never deadlock, and the lock is released on
    every way out of [can_make_request]: in every state reached from a new
    limiter, as long as some caller has not returned some caller can take
    its next step, and once all have returned the lock is free. *)
Theorem callers_never_deadlock (rpm burst : Z) (n : nat)
    (schedule : list action) (s : state) :
  run schedule (init rpm burst n) = Some s ->
  (forall i p, callers s !! i = Some p ->
      (forall answer, p <> Returned answer) ->
      exists j s', fire j s = Some s') /\
  ((forall i p, callers s !! i = Some p -> exists answer, p = Returned answer) ->
      holder s = None).
Proof.
  intros Hrun.
  assert (Hinv : holder_inside s).
  { eapply holder_inside_run; [|exact Hrun]. intros h Hh. discriminate. }
  assert (Hin : forall h p, callers s !! h = Some p -> in_critical_section p = true ->
                  exists s', fire h s = Some s').
  { intros h p Hp Hcs. unfold fire. rewrite Hp.
    destruct p; try discriminate; simpl.
    - destruct (requests (shared s)) as [|r q]; [|destruct (r <? now - minute)]; eauto.
    - destruct (_ >=? _); eauto.
    - destruct (_ >=? _); eauto.
    - eauto. }
  split.
  - intros i p Hi Hp.
    destruct (in_critical_section p) eqn:Hcs.
    { exists i. eapply Hin; eauto. }
    destruct p as [|now|now|now|now|now|answer]; try discriminate.
    + exists i. unfold fire. rewrite Hi. eauto.
    + destruct (holder s) as [h|] eqn:Hh.
      * destruct (Hinv h Hh) as (ph & Hph & Hcs'). exists h. eapply Hin; eauto.
      * exists i. unfold fire. rewrite Hi, Hh. eauto.
    + exfalso. apply (Hp answer). reflexivity.
  - intros Hall. destruct (holder s) as [h|] eqn:Hh; [|reflexivity].
    destruct (Hinv h Hh) as (ph & Hph & Hcs).
    destruct (Hall h ph Hph) as [answer ->]. discriminate.
Qed.

(** Two callers, the first holding the lock at line 27 while the second
    waits for it. *)
Lemma callers_never_deadlock_witness :
  (forall i p,
      callers (mkState 0 (RateLimiter.init 1 1) (Some 0%nat) [CheckingMinute 0; HasNow 0]) !! i = Some p ->
      (forall answer, p <> Returned answer) ->
      exists j s', fire j (mkState 0 (RateLimiter.init 1 1) (Some 0%nat) [CheckingMinute 0; HasNow 0])
                   = Some s') /\
  ((forall i p,
      callers (mkState 0 (RateLimiter.init 1 1) (Some 0%nat) [CheckingMinute 0; HasNow 0]) !! i = Some p ->
      exists answer, p = Returned answer) ->
      holder (mkState 0 (RateLimiter.init 1 1) (Some 0%nat) [CheckingMinute 0; HasNow 0]) = None).
Proof.
  apply (callers_never_deadlock 1 1 2
           [Run 0%nat; Run 1%nat; Run 0%nat; Run 0%nat]
           (mkState 0 (RateLimiter.init 1 1) (Some 0%nat) [CheckingMinute 0; HasNow 0])).
  reflexivity.
Defined.

End CallersOfTheLimiter.

(** ** Identifiers and sanitized records *)

Section IdentifiersAndCopies.
Import DataHandler.
Local Open Scope string_scope.

Lemma string_app_assoc (a b c : string) : (a ++ b) ++ c = a ++ (b ++ c).
Proof.
  induction a as [|x a IH]; [reflexivity|].
  change (String x ((a ++ b) ++ c) = String x (a ++ (b ++ c))).
  rewrite IH. reflexivity.
Qed.

(** X7. The identifier does not tell some different identity triples apart:
    an absent title or company and the title or company "None" give the
    same identifier, and so do two triples that differ only in where an
    underscore passes from the name to the title. *)
Theorem generate_id_collisions (self : DataHandler.t) :
  (forall n c edu links stamp,
      generate_id self (mkPersonData n None c edu links stamp) =
      generate_id self (mkPersonData n (Some "None") c edu links stamp)) /\
  (forall n t edu links stamp,
      generate_id self (mkPersonData n t None edu links stamp) =
      generate_id self (mkPersonData n t (Some "None") edu links stamp)) /\
  (forall a b t c edu links stamp,
      generate_id self (mkPersonData (a ++ "_" ++ b) (Some t) c edu links stamp) =
      generate_id self (mkPersonData a (Some (b ++ "_" ++ t)) c edu links stamp)).
Proof.
  split; [|split].
  - reflexivity.
  - reflexivity.
  - intros a b t c edu links stamp. unfold generate_id. simpl.
    rewrite !string_app_assoc. reflexivity.
Qed.

Example generate_id_collision_examples :
  generate_id (mk "data/") (mkPersonData "Jane_Doe" (Some "CTO") None None None None) =
  generate_id (mk "data/") (mkPersonData "Jane" (Some "Doe_CTO") None None None None).
Proof. vm_compute. reflexivity. Qed.

Lemma hex_digit_is_hex (x : Z) :
  is_hex_digit (Sha256.hex_digit (Z.land x 15)) = true.
Proof.
  change 15%Z with (Z.ones 4). rewrite Z.land_ones by lia.
  pose proof (Z.mod_pos_bound x (2 ^ 4) ltac:(lia)) as Hd.
  set (d := (x mod 2 ^ 4)%Z) in *.
  assert (Hcases : (d = 0 \/ d = 1 \/ d = 2 \/ d = 3 \/ d = 4 \/ d = 5 \/ d = 6 \/ d = 7 \/
                    d = 8 \/ d = 9 \/ d = 10 \/ d = 11 \/ d = 12 \/ d = 13 \/ d = 14 \/
                    d = 15)%Z) by lia.
  repeat (destruct Hcases as [-> | Hcases]; [reflexivity|]).
  rewrite Hcases. reflexivity.
Qed.

Lemma all_chars_hex8 (w : Z) (tail : string) :
  all_chars is_hex_digit tail = true ->
  all_chars is_hex_digit (Sha256.hex8 w tail) = true.
Proof.
  intros H. unfold Sha256.hex8. cbn [all_chars].
  rewrite !hex_digit_is_hex, H. reflexivity.
Qed.

Lemma all_chars_take (p : ascii -> bool) (n : nat) : forall s,
  all_chars p s = true -> all_chars p (Str.take n s) = true.
Proof.
  induction n as [|n IH]; intros s H; [reflexivity|].
  destruct s as [|c s]; [reflexivity|]. simpl in *.
  apply andb_true_iff in H as [Hc Hs]. rewrite Hc, IH by exact Hs. reflexivity.
Qed.

(** X8. Every identifier is made of the characters [0-9a-f] only, twelve of
    them: the name of the file it gives has no separator and no dot of its
    own. *)
Theorem generate_id_is_lower_hex (self : DataHandler.t) (data : PersonData) :
  all_chars is_hex_digit (generate_id self data) = true /\
  String.length (generate_id self data) = 12%nat.
Proof.
  split; [|apply generate_id_length].
  unfold generate_id. apply all_chars_take. unfold Sha256.hexdigest.
  repeat apply all_chars_hex8. reflexivity.
Qed.

Lemma filter_sublist_of (p : string -> bool) (l : list string) :
  sublist (List.filter p l) l.
Proof.
  induction l as [|x l IH]; simpl; [constructor|].
  destruct (p x); [apply sublist_skip|apply sublist_cons]; exact IH.
Qed.

Lemma filter_idem (p : string -> bool) (l : list string) :
  List.filter p (List.filter p l) = List.filter p l.
Proof.
  induction l as [|x l IH]; simpl; [reflexivity|].
  destruct (p x) eqn:Hp; simpl; [rewrite Hp, IH; reflexivity|exact IH].
Qed.

(** X9. [sanitize_data] returns a copy and changes nothing else. The copy
    has the name, title, company and education of the record; its links are
    the links of the record that [is_safe_link] accepts, in their order, and
    a list even where the record has [None]; its identifier is that of the
    record. Sanitizing the copy again gives the same links. *)
Theorem sanitize_data_copy (self : DataHandler.t) (data : PersonData) (w : World) :
  exists copy links,
    sanitize_data self data w = Return copy w /\
    name copy = name data /\
    professional_title copy = professional_title data /\
    company copy = company data /\
    education copy = education data /\
    public_links copy = Some links /\
    sublist links (or_empty (public_links data)) /\
    (forall link, In link links <->
                  In link (or_empty (public_links data)) /\ is_safe_link link = true) /\
    last_updated copy = Some (Time.isoformat (Time.reading (clock w))) /\
    generate_id self copy = generate_id self data /\
    (forall w', (public_links <$> returned (sanitize_data self copy w')) = Some (Some links)).
Proof.
  eexists. eexists. split; [reflexivity|]. simpl.
  repeat split; try reflexivity.
  - apply filter_sublist_of.
  - apply List.filter_In in H. tauto.
  - apply List.filter_In in H. tauto.
  - intros [H1 H2]. apply List.filter_In. auto.
  - intros w'. simpl. rewrite filter_idem. reflexivity.
Qed.

Example sanitize_data_examples :
  (public_links <$> returned (sanitize_data (mk "data/")
     (mkPersonData "Jane Doe" None None None None None) (fresh_world []))) =
    Some (Some []) /\
  (public_links <$> returned (sanitize_data (mk "data/")
     (mkPersonData "Jane Doe" None None None
        (Some ["badsite.com/jane"; "GitHub.com/janedoe"; "http://twitter.com/jd"]) None)
     (fresh_world []))) =
    Some (Some ["GitHub.com/janedoe"; "http://twitter.com/jd"]).
Proof. split; reflexivity. Qed.

(** X10. With [os] in place, saving replaces and does not merge: after two
    records of one identity triple are saved one after the other, the file
    of their identifier holds the sanitized copy of the second and nothing of
    the first, every other file is as it was, and the store has at most one
    file more than before. *)
Theorem save_person_data_twice (m : OsModule) (b : Bindings) (self : DataHandler.t)
    (d1 d2 : PersonData) (w : World) :
  os b = Some m ->
  name d1 = name d2 -> professional_title d1 = professional_title d2 ->
  company d1 = company d2 ->
  let file_path := path_join m (storage_path self) (generate_id self d1 ++ ".json") in
  file_path ∉ unwritable w ->
  exists w1 w2,
    save_person_data b self d1 w = Return (generate_id self d1) w1 /\
    save_person_data b self d2 w1 = Return (generate_id self d1) w2 /\
    (files w2 !! file_path) = returned (sanitize_data self d2 w1) /\
    (forall other, other <> file_path -> files w2 !! other = files w !! other) /\
    dom (files w2) = {[ file_path ]} ∪ dom (files w).
Proof.
  intros Hos Hn Ht Hc file_path Hw.
  assert (Hid : generate_id self d2 = generate_id self d1).
  { unfold generate_id. rewrite Hn, Ht, Hc. reflexivity. }
  destruct (save_person_data_with_os m b self d1 w Hos Hw)
    as (s1 & w1 & Hsave1 & Hfiles1 & _).
  assert (Hunw : unwritable w1 = unwritable w).
  { unfold save_person_data, bind, global in Hsave1. simpl in Hsave1.
    rewrite Hos in Hsave1. simpl in Hsave1. unfold write_json in Hsave1.
    destruct (decide _); [discriminate|]. injection Hsave1 as <-. reflexivity. }
  assert (Hw1 : path_join m (storage_path self) (generate_id self d2 ++ ".json")
                ∉ unwritable w1).
  { rewrite Hid, Hunw. exact Hw. }
  destruct (save_person_data_with_os m b self d2 w1 Hos Hw1)
    as (s2 & w2 & Hsave2 & Hfiles2 & Hs2 & _).
  rewrite Hid in Hsave2, Hfiles2. fold file_path in Hfiles1, Hfiles2.
  exists w1, w2. split; [exact Hsave1|]. split; [exact Hsave2|].
  rewrite Hfiles2, Hfiles1. split; [|split].
  - rewrite lookup_insert_eq. symmetry. exact Hs2.
  - intros other Hne. rewrite !lookup_insert_ne by congruence. reflexivity.
  - rewrite insert_insert_eq, dom_insert_L. reflexivity.
Qed.

Lemma save_person_data_twice_witness :
  let d1 := mkPersonData "Jane Doe" None None None (Some ["github.com/janedoe"]) None in
  let d2 := mkPersonData "Jane Doe" None None (Some ["MIT"]) (Some ["badsite.com/jane"]) None in
  let w := fresh_world [] in
  let file_path :=
    path_join Posix.os_module (storage_path (mk "data/"))
              (generate_id (mk "data/") d1 ++ ".json") in
  exists w1 w2,
    save_person_data with_os_imported (mk "data/") d1 w =
      Return (generate_id (mk "data/") d1) w1 /\
    save_person_data with_os_imported (mk "data/") d2 w1 =
      Return (generate_id (mk "data/") d1) w2 /\
    (files w2 !! file_path) = returned (sanitize_data (mk "data/") d2 w1) /\
    (forall other, other <> file_path -> files w2 !! other = files w !! other) /\
    dom (files w2) = {[ file_path ]} ∪ dom (files w).
Proof.
  intros d1 d2 w file_path.
  apply (save_person_data_twice Posix.os_module with_os_imported (mk "data/") d1 d2 w);
    try reflexivity.
  simpl. set_solver.
Defined.

End IdentifiersAndCopies.

(** ** Source lookups and the search *)

Section SourceLookups.
Import EnhancedWebCrawler.
Local Open Scope string_scope.

Lemma lower_app (a b : string) : Str.lower (a ++ b) = Str.lower a ++ Str.lower b.
Proof.
  induction a as [|x a IH]; [reflexivity|].
  change (String (Str.lower_char x) (Str.lower (a ++ b)) =
          String (Str.lower_char x) (Str.lower a ++ Str.lower b)).
  rewrite IH. reflexivity.
Qed.

(** A marker in lower case that occurs in a link occurs in the lowercased
    link. *)
Lemma contains_lower (marker link : string) :
  Str.lower marker = marker ->
  Str.contains marker link = true -> Str.contains marker (Str.lower link) = true.
Proof.
  intros Hm Hc. apply contains_spec in Hc as (pre & post & ->).
  apply contains_spec. exists (Str.lower pre), (Str.lower post).
  rewrite !lower_app, Hm. reflexivity.
Qed.

Lemma profile_anchor_is_safe (h : string) :
  is_profile_anchor (Some h) = true -> DataHandler.is_safe_link h = true.
Proof.
  intros H. simpl in H. apply contains_lower in H; [|reflexivity].
  unfold DataHandler.is_safe_link, DataHandler.allowed_domains. cbn [existsb].
  rewrite H. reflexivity.
Qed.

(** X11. [parse_linkedin_results] keeps one link at most: the [href] of the
    first [a] element whose [href] contains ['linkedin.com/in/'], under the
    key ['public_links'], and the empty dictionary when there is none. The
    link it keeps is one that [is_safe_link] accepts. *)
Theorem parse_linkedin_results_first_profile (anchors : list (option string)) :
  (Forall (fun a => is_profile_anchor a = false) anchors /\
   parse_linkedin_results anchors = ∅) \/
  (exists before h after,
      anchors = (before ++ Some h :: after)%list /\
      Forall (fun a => is_profile_anchor a = false) before /\
      is_profile_anchor (Some h) = true /\
      parse_linkedin_results anchors = {[ "public_links" := [h] ]} /\
      DataHandler.is_safe_link h = true).
Proof.
  unfold parse_linkedin_results.
  induction anchors as [|a anchors IH].
  - left. split; [constructor|reflexivity].
  - destruct a as [h|].
    + destruct (Str.contains "linkedin.com/in/" h) eqn:Hh.
      * right. exists [], h, anchors. split; [reflexivity|]. split; [constructor|].
        split; [exact Hh|]. split; [|apply profile_anchor_is_safe; exact Hh].
        cbn [omap list_omap]. rewrite Hh. reflexivity.
      * cbn [omap list_omap]. rewrite Hh.
        destruct IH as [[Hnone Hempty]|(before & h' & after & -> & Hb & Hm & Hp & Hs)].
        -- left. split; [constructor; [exact Hh|exact Hnone]|exact Hempty].
        -- right. exists (Some h :: before), h', after. split; [reflexivity|].
           split; [constructor; [exact Hh|exact Hb]|]. auto.
    + cbn [omap list_omap].
      destruct IH as [[Hnone Hempty]|(before & h' & after & -> & Hb & Hm & Hp & Hs)].
      * left. split; [constructor; [reflexivity|exact Hnone]|exact Hempty].
      * right. exists (None :: before), h', after. split; [reflexivity|].
        split; [constructor; [reflexivity|exact Hb]|]. auto.
Qed.




(** X13. In the file as it is [search_person] returns no record, whatever
    the name and the world: it is stopped by the exception of the request
    when the network gives no response, and otherwise by the call of
    [self.search_github], which the class does not define. No file is
    written on the way. *)
Theorem search_person_as_written_never_returns (fuel : nat)
    (self : EnhancedWebCrawler.t) (name : string) (w : World) :
  returned (search_person fuel as_written self name w) = None /\
  (ready w -> (602 <= fuel)%nat ->
   raised (search_person fuel as_written self name w) =
     Some (match http w with
           | Response _ _ :: _ => AttributeError "search_github"
           | _ => RequestException
                    ("https://www.google.com/search?q=site:linkedin.com/in/ " ++ name)
           end) /\
   (files <$> final (search_person fuel as_written self name w)) = Some (files w)).
Proof.
  split.
  - unfold search_person, gather, bind. simpl.
    destruct (wait_if_needed fuel w) as [[] w1| |]; try reflexivity.
    destruct (search_linkedin fuel self name w1) as [info w2| |]; reflexivity.
  - intros Hready Hfuel.
    destruct (wait_if_needed_ready fuel w Hready Hfuel) as (l1 & c1 & Hw1 & Hready1).
    destruct (wait_if_needed_ready fuel _ Hready1 Hfuel) as (l2 & c2 & Hw2 & _).
    assert (Hrun : exists w',
               search_person fuel as_written self name w =
                 Raise (match http w with
                        | Response _ _ :: _ => AttributeError "search_github"
                        | _ => RequestException
                                 ("https://www.google.com/search?q=site:linkedin.com/in/ "
                                  ++ name)
                        end) w' /\
               files w' = files w).
    { unfold search_person, gather, search_linkedin, bind.
      rewrite Hw1. cbv beta iota. rewrite Hw2. cbv beta iota.
      unfold session_get. cbn [http set_clock set_limiter].
      destruct (http w) as [|[status body|] rest]; cbv beta iota.
      - eexists. split; reflexivity.
      - destruct (fst (status, body) =? 200)%Z; eexists; split; reflexivity.
      - eexists. split; reflexivity. }
    destruct Hrun as (w' & -> & Hfiles). simpl. rewrite Hfiles. split; reflexivity.
Qed.

Lemma search_person_as_written_never_returns_witness :
  let w := fresh_world [Response 200 [Some "https://www.linkedin.com/in/janedoe"]] in
  raised (search_person 602 as_written a_crawler "Jane Doe" w) =
    Some (match http w with
          | Response _ _ :: _ => AttributeError "search_github"
          | _ => RequestException
                   ("https://www.google.com/search?q=site:linkedin.com/in/ " ++ "Jane Doe")
          end) /\
  (files <$> final (search_person 602 as_written a_crawler "Jane Doe" w)) = Some (files w).
Proof.
  intros w.
  apply (proj2 (search_person_as_written_never_returns 602 a_crawler "Jane Doe" w));
    [|lia].
  unfold ready. simpl. split; [lia|]. split; [lia|constructor].
Defined.

(** X14. In the file as it is no crawler can be made: whatever the keyword
    arguments, the call of [EnhancedWebCrawler] raises, [TypeError] for the
    first keyword when there is one and [NameError] for [os] when there is
    none, and it creates no directory. *)
Theorem no_crawler_as_written (kwargs : list (string * option string)) (w : World) :
  exists e w',
    EnhancedWebCrawler.new kwargs as_written w = Raise e w' /\
    e = match kwargs with
        | [] => NameError "os"
        | (k, _) :: _ => TypeError k
        end /\
    dirs w' = dirs w /\ files w' = files w.
Proof.
  destruct kwargs as [|[k v] rest]; eexists; eexists; (split; [reflexivity|]);
    repeat split.
Qed.

(** X15. With [os] bound, and on a file system that lets the directory
    ["data/"] be made, [EnhancedWebCrawler()] returns a crawler whose handler
    stores under ["data/"]; it leaves a new limiter of 60 requests a minute
    and 10 a second, and the directory in place, and writes no file. Where
    [os.makedirs] fails the constructor raises what it raises. *)
Theorem crawler_with_os_imported (refused : gset string) (w : World) :
  let b := mkBindings (Some (Posix.os_on refused)) None None None in
  ("data/" ∉ refused ->
   exists w',
     EnhancedWebCrawler.new [] b w = Return a_crawler w' /\
     limiter w' = RateLimiter.init 60 10 /\
     "data/" ∈ dirs w' /\ dirs w ⊆ dirs w' /\ files w' = files w /\ http w' = http w) /\
  ("data/" ∈ refused ->
   raised (EnhancedWebCrawler.new [] b w) = Some (OSError "data/")).
Proof.
  intros b. split.
  - intros Hfree. eexists. split.
    + unfold EnhancedWebCrawler.new, EnhancedWebCrawler.init. simpl.
      unfold bind, DataHandler.init, DataHandler.ensure_storage_exists, bind, global. simpl.
      unfold Posix.makedirs_exist_ok. simpl.
      rewrite decide_False by exact Hfree. reflexivity.
    + simpl. repeat split; try reflexivity; set_solver.
  - intros Hin. unfold EnhancedWebCrawler.new, EnhancedWebCrawler.init. simpl.
    unfold bind, DataHandler.init, DataHandler.ensure_storage_exists, bind, global. simpl.
    unfold Posix.makedirs_exist_ok. simpl.
    rewrite decide_True by exact Hin. reflexivity.
Qed.

Lemma crawler_with_os_imported_witness :
  exists w',
    EnhancedWebCrawler.new [] (mkBindings (Some (Posix.os_on ∅)) None None None)
      (fresh_world []) = Return a_crawler w' /\
    limiter w' = RateLimiter.init 60 10 /\
    "data/" ∈ dirs w' /\ dirs (fresh_world []) ⊆ dirs w' /\
    files w' = files (fresh_world []) /\ http w' = http (fresh_world []).
Proof.
  apply (proj1 (crawler_with_os_imported ∅ (fresh_world []))).
  set_solver.
Defined.

(** X16. [main] never starts the bot, whatever the environment, the
    collaborators and the bindings: it raises [ValueError] when one of the
    three variables is missing or empty once [load_dotenv] has run, and
    [TypeError] for the keyword [google_api_key] otherwise; the world is
    then as [load_dotenv] left it, with nothing printed. *)
Theorem main_never_starts_the_bot (ext : Main.Collaborators) (b : Bindings) (w : World) :
  let env := Main.load_dotenv ext (environ w) in
  Main.main ext b w =
    Raise (if forallb Main.truthy
               [env !! "TELEGRAM_BOT_TOKEN"; env !! "GOOGLE_API_KEY"; env !! "SEARCH_ENGINE_ID"]
           then TypeError "google_api_key"
           else ValueError "Missing required API keys in environment variables")
          (set_environ env w) /\
  (forall e w', Main.main ext b w = Raise e w' -> stdout w' = stdout w).
Proof.
  intros env.
  assert (Hmain : Main.main ext b w =
    Raise (if forallb Main.truthy
               [env !! "TELEGRAM_BOT_TOKEN"; env !! "GOOGLE_API_KEY"; env !! "SEARCH_ENGINE_ID"]
           then TypeError "google_api_key"
           else ValueError "Missing required API keys in environment variables")
          (set_environ env w)).
  { unfold Main.main. cbn [environ set_environ]. fold env.
    destruct (forallb Main.truthy _); reflexivity. }
  split; [exact Hmain|].
  intros e w' H. rewrite Hmain in H. injection H as _ <-. reflexivity.
Qed.

End SourceLookups.

(** ** The logger *)

Section Logger.
Import CrawlerLogger.
Local Open Scope string_scope.

Lemma installed_S (k : nat) :
  installed (S k) =
  mkHandler (ToFile "crawler.log") INFO :: mkHandler ToStderr WARNING :: installed k.
Proof. reflexivity. Qed.

(** X17. Every [CrawlerLogger()] adds two more handlers to the one logger
    named ['WebCrawler']: after [k] constructions the logger has [k] file
    handlers on [crawler.log] and [k] console handlers, its level is
    [INFO], and the log file exists with what it held before; nothing has
    been written yet. *)
Theorem constructions_pile_up_handlers (k : nat) : forall st : Logging,
  "crawler.log" ∉ locked st ->
  exists st',
    construct k st = Constructed st' /\
    handlers st' = (handlers st ++ installed k)%list /\
    (k <> 0%nat ->
       logger_level st' = INFO /\
       log_files st' !! "crawler.log" = Some (default [] (log_files st !! "crawler.log"))) /\
    (forall p, p <> "crawler.log" -> log_files st' !! p = log_files st !! p) /\
    console st' = console st /\ locked st' = locked st.
Proof.
  induction k as [|k IH]; intros st Hfree.
  - exists st. simpl. rewrite app_nil_r. repeat split; congruence.
  - simpl. unfold init. simpl. rewrite decide_False by exact Hfree.
    set (st1 := mkLogging INFO _ _ _ _).
    destruct (IH st1 Hfree) as (st' & Hc & Hh & Hk & Hp & Hcon & Hl).
    exists st'. split; [exact Hc|].
    assert (Hfile : log_files st1 !! "crawler.log" =
                    Some (default [] (log_files st !! "crawler.log"))).
    { subst st1. simpl. destruct (log_files st !! "crawler.log") as [lines|] eqn:E.
      - exact E.
      - apply lookup_insert_eq. }
    split; [|split; [|split; [|split]]].
    + rewrite Hh. subst st1. cbn [handlers]. rewrite <- app_assoc. reflexivity.
    + intros _. destruct k as [|k].
      * simpl in Hc. injection Hc as <-. split; [reflexivity|exact Hfile].
      * destruct (Hk ltac:(discriminate)) as [Hlvl Hlook]. split; [exact Hlvl|].
        rewrite Hlook, Hfile. reflexivity.
    + intros p Hne. rewrite (Hp p Hne). subst st1. simpl.
      destruct (log_files st !! "crawler.log"); [reflexivity|].
      apply lookup_insert_ne. congruence.
    + rewrite Hcon. reflexivity.
    + rewrite Hl. reflexivity.
Qed.

Lemma constructions_pile_up_handlers_witness :
  exists st',
    construct 3 at_start = Constructed st' /\
    handlers st' = (handlers at_start ++ installed 3)%list /\
    (3%nat <> 0%nat ->
       logger_level st' = INFO /\
       log_files st' !! "crawler.log" =
         Some (default [] (log_files at_start !! "crawler.log"))) /\
    (forall p, p <> "crawler.log" -> log_files st' !! p = log_files at_start !! p) /\
    console st' = console at_start /\ locked st' = locked at_start.
Proof. apply (constructions_pile_up_handlers 3 at_start). simpl. set_solver. Defined.

(** What the handlers of [k] constructions do with one record at [INFO] or
    above. *)
Lemma handle_installed (l : Level) (line : string) (k : nat) : forall st : Logging,
  (levelno l <? levelno INFO)%Z = false ->
  let st' := fold_left (handle l line) (installed k) st in
  default [] (log_files st' !! "crawler.log") =
    (default [] (log_files st !! "crawler.log") ++ repeat line k)%list /\
  (k <> 0%nat -> is_Some (log_files st' !! "crawler.log")) /\
  console st' =
    (console st ++ (if (levelno l <? levelno WARNING)%Z then [] else repeat line k))%list /\
  handlers st' = handlers st /\ logger_level st' = logger_level st /\
  locked st' = locked st /\
  (forall p, p <> "crawler.log" -> log_files st' !! p = log_files st !! p).
Proof.
  induction k as [|k IH]; intros st Hl.
  - change (installed 0) with (@nil Handler). cbn [fold_left repeat].
    split; [rewrite app_nil_r; reflexivity|]. split; [congruence|].
    split; [destruct (levelno l <? levelno WARNING)%Z; rewrite app_nil_r; reflexivity|].
    repeat split; reflexivity.
  - rewrite installed_S. cbn [fold_left].
    set (st1 := handle l line st (mkHandler (ToFile "crawler.log") INFO)).
    set (st2 := handle l line st1 (mkHandler ToStderr WARNING)).
    destruct (IH st2 Hl) as (Hf & _ & Hc & Hh & Hlv & Hlk & Hp).
    assert (H1 : st1 = mkLogging (logger_level st) (handlers st)
                   (<["crawler.log" :=
                        (default [] (log_files st !! "crawler.log") ++ [line])%list]>
                      (log_files st))
                   (console st) (locked st)).
    { subst st1. unfold handle. cbn [handler_level target]. rewrite Hl. reflexivity. }
    assert (H2 : log_files st2 = log_files st1 /\ handlers st2 = handlers st1 /\
                 logger_level st2 = logger_level st1 /\ locked st2 = locked st1 /\
                 console st2 =
                   (console st1 ++ (if (levelno l <? levelno WARNING)%Z then [] else [line]))%list).
    { subst st2. unfold handle. cbn [handler_level target].
      destruct (levelno l <? levelno WARNING)%Z; simpl; rewrite ?app_nil_r; auto. }
    destruct H2 as (F2 & Hd2 & L2 & K2 & C2).
    assert (Hlook : log_files st2 !! "crawler.log" =
                    Some (default [] (log_files st !! "crawler.log") ++ [line])%list).
    { rewrite F2, H1. simpl. apply lookup_insert_eq. }
    cbv zeta. split; [|split; [|split; [|split; [|split; [|split]]]]].
    + rewrite Hf, Hlook. simpl. rewrite <- app_assoc. reflexivity.
    + intros _. destruct k as [|k].
      * simpl. rewrite Hlook. eauto.
      * pose proof (IH st2 Hl) as (_ & Hsome & _). apply Hsome. discriminate.
    + rewrite Hc, C2, H1. cbn [console repeat].
      destruct (levelno l <? levelno WARNING)%Z.
      * rewrite !app_nil_r. reflexivity.
      * rewrite <- app_assoc. reflexivity.
    + rewrite Hh, Hd2, H1. reflexivity.
    + rewrite Hlv, L2, H1. reflexivity.
    + rewrite Hlk, K2, H1. reflexivity.
    + intros p Hne. rewrite (Hp p Hne), F2, H1. simpl.
      apply lookup_insert_ne. congruence.
Qed.

(** X18. On the logger that [k+1] constructions have set up, one
    [log_search] writes its line [k+1] times to [crawler.log]. A successful
    search is logged at [INFO] and stays off the console; a failed one is
    logged at [ERROR], with ["None"] in place of an error that is not
    given, and is also printed [k+1] times on the console. Nothing else is
    touched. *)
Theorem log_search_writes_once_per_construction (k : nat) (st : Logging)
    (asctime name : string) (success : bool) (error : option string) :
  handlers st = installed (S k) -> logger_level st = INFO ->
  let line :=
    if success
    then asctime ++ " - WebCrawler - INFO - Successfully searched for " ++ name
    else asctime ++ " - WebCrawler - ERROR - Failed to search for " ++ name ++ ": " ++
         match error with Some text => text | None => "None" end in
  let st' := log_search asctime name success error st in
  log_files st' !! "crawler.log" =
    Some (default [] (log_files st !! "crawler.log") ++ repeat line (S k))%list /\
  console st' = (console st ++ (if success then [] else repeat line (S k)))%list /\
  handlers st' = handlers st /\ logger_level st' = logger_level st /\
  (forall p, p <> "crawler.log" -> log_files st' !! p = log_files st !! p).
Proof.
  intros Hh Hlv line st'.
  assert (Hlog : forall l message,
             (levelno l <? levelno INFO)%Z = false ->
             log l asctime message st =
             fold_left (handle l (format_record asctime l message)) (installed (S k)) st).
  { intros l message Hl. unfold log, effective_level. rewrite Hlv, Hl, Hh.
    rewrite installed_S. reflexivity. }
  assert (Hres : exists l,
             (levelno l <? levelno INFO)%Z = false /\
             st' = fold_left (handle l line) (installed (S k)) st /\
             (levelno l <? levelno WARNING)%Z = success).
  { subst st' line. unfold log_search. destruct success.
    - exists INFO.
      split; [reflexivity|]. split; [|reflexivity]. rewrite Hlog by reflexivity.
      reflexivity.
    - exists ERROR.
      split; [reflexivity|]. split; [|reflexivity]. rewrite Hlog by reflexivity.
      unfold format_record, DataHandler.format. simpl levelname.
      destruct error; reflexivity. }
  destruct Hres as (l & Hl & -> & Hwarn).
  destruct (handle_installed l line (S k) st Hl) as (Hf & Hsome & Hc & Hhd & Hlvl & _ & Hp).
  split; [|split; [|split; [|split]]]; try assumption.
  - destruct (Hsome ltac:(discriminate)) as [lines Hlines].
    rewrite Hlines in Hf |- *. simpl in Hf. rewrite Hf. reflexivity.
  - rewrite Hc, Hwarn. reflexivity.
Qed.

Lemma log_search_writes_once_per_construction_witness :
  let st := mkLogging INFO (installed 2) {[ "crawler.log" := ["old line"] ]} [] ∅ in
  let line :=
    "2026-11-03 17:29:00,123" ++ " - WebCrawler - ERROR - Failed to search for " ++
    "Jane Doe" ++ ": " ++ "None" in
  let st' := log_search "2026-11-03 17:29:00,123" "Jane Doe" false None st in
  log_files st' !! "crawler.log" =
    Some (default [] (log_files st !! "crawler.log") ++ repeat line 2)%list /\
  console st' = (console st ++ repeat line 2)%list /\
  handlers st' = handlers st /\ logger_level st' = logger_level st /\
  (forall p, p <> "crawler.log" -> log_files st' !! p = log_files st !! p).
Proof.
  intros st line st'.
  apply (log_search_writes_once_per_construction 1 st
           "2026-11-03 17:29:00,123" "Jane Doe" false None); reflexivity.
Defined.

Example log_search_examples :
  match construct 1 at_start with
  | Constructed st =>
      let st1 := log_search "t1" "Jane Doe" true None st in
      let st2 := log_search "t2" "John Roe" false (Some "timeout") st1 in
      log_files st2 !! "crawler.log" =
        Some ["t1 - WebCrawler - INFO - Successfully searched for Jane Doe";
              "t2 - WebCrawler - ERROR - Failed to search for John Roe: timeout"] /\
      console st2 = ["t2 - WebCrawler - ERROR - Failed to search for John Roe: timeout"]
  | Failed _ _ => False
  end.
Proof. vm_compute. split; reflexivity. Qed.

End Logger.

(** ** Links that embed a marker *)

Section EmbeddedMarkers.

(** X20. The filter looks for a marker anywhere in the link: a link that it
    accepts is still accepted with any text put before it or after it, so a
    link to any site passes once it carries a marker in its path or query. *)
Theorem is_safe_link_anywhere (before link after : string) :
  DataHandler.is_safe_link link = true ->
  DataHandler.is_safe_link (before ++ link ++ after)%string = true.
Proof.
  unfold DataHandler.is_safe_link. rewrite !existsb_exists.
  intros (marker & Hin & Hc). exists marker. split; [exact Hin|].
  apply contains_spec in Hc as (pre & post & Hl). apply contains_spec.
  exists (Str.lower before ++ pre)%string, (post ++ Str.lower after)%string.
  rewrite !lower_app, Hl, !string_app_assoc. reflexivity.
Qed.

Lemma is_safe_link_anywhere_witness :
  DataHandler.is_safe_link ("https://badsite.com/?next=" ++ "github.com/" ++ "x")%string = true.
Proof.
  apply (is_safe_link_anywhere "https://badsite.com/?next=" "github.com/" "x").
  reflexivity.
Defined.

End EmbeddedMarkers.

(** ** The blocking wait against the wall clock *)

Section WaitOnWallClock.
Import Time RateLimiter.
Local Open Scope Z_scope.

Lemma calls_app (l1 l2 : list Z) : forall self,
  calls self (l1 ++ l2) =
  (fst (calls self l1) ++ fst (calls (snd (calls self l1)) l2),
   snd (calls (snd (calls self l1)) l2)).
Proof.
  induction l1 as [|now l1 IH]; intros self.
  - simpl. destruct (calls self l2). reflexivity.
  - simpl. destruct (can_make_request now self) as [ok self1].
    rewrite IH. destruct (calls self1 l1) as [log1 s1]. simpl.
    destruct (calls s1 l2). reflexivity.
Qed.

Lemma accepted_app (log1 log2 : list (Z * bool)) :
  accepted (log1 ++ log2) = accepted log1 ++ accepted log2.
Proof. unfold accepted. rewrite List.filter_app, map_app. reflexivity. Qed.

Lemma accepted_rejected (l : list Z) : accepted (map (fun r => (r, false)) l) = [].
Proof.
  induction l as [|r l IH]; [reflexivity|]. cbn [map]. rewrite accepted_cons. exact IH.
Qed.

Lemma calls_config (ticks : list Z) : forall self,
  requests_per_minute (snd (calls self ticks)) = requests_per_minute self /\
  burst_limit (snd (calls self ticks)) = burst_limit self.
Proof.
  induction ticks as [|t1 ticks IH]; intros self; simpl; [auto|].
  pose proof (can_make_request_config t1 self) as [H1 H2].
  destruct (can_make_request t1 self) as [ok self']. simpl in *.
  specialize (IH self'). destruct (calls self' ticks). simpl in *.
  destruct IH. split; congruence.
Qed.

(** An accepted call shows that each cap leaves room for a request. *)
Lemma accepted_call_caps now self self' :
  can_make_request now self = (true, self') ->
  1 <= requests_per_minute self /\ 1 <= burst_limit self.
Proof.
  unfold can_make_request.
  set (q := popleft_stale (now - minute) (requests self)).
  destruct (Z.of_nat (length q) >=? requests_per_minute self) eqn:Hfull; [discriminate|].
  destruct (recent_requests (now - second) q >=? burst_limit self) eqn:Hb; [discriminate|].
  intros _. rewrite Z.geb_leb in Hfull, Hb. apply Z.leb_gt in Hfull, Hb.
  unfold recent_requests in Hb. lia.
Qed.

Lemma accepted_calls_caps (ticks : list Z) : forall self,
  accepted (fst (calls self ticks)) <> [] ->
  1 <= requests_per_minute self /\ 1 <= burst_limit self.
Proof.
  induction ticks as [|now ticks IH]; intros self Hacc; [contradiction Hacc; reflexivity|].
  simpl in Hacc.
  pose proof (can_make_request_config now self) as [C1 C2].
  destruct (can_make_request now self) as [[|] self1] eqn:E.
  - eapply accepted_call_caps; eauto.
  - simpl in C1, C2. destruct (calls self1 ticks) as [log final] eqn:E2.
    simpl in Hacc. rewrite accepted_cons in Hacc.
    destruct (IH self1) as [H1 H2]; [rewrite E2; exact Hacc|]. split; congruence.
Qed.

(** The wait returns out of the first accepted attempt, and out of nothing
    else. *)
Lemma wait_on_spec (readings : list Z) : forall self stamp sleeps rest final,
  wait_on readings self = Some (stamp, sleeps, rest, final) <->
  exists rejected,
    readings = rejected ++ stamp :: rest /\
    calls self (rejected ++ [stamp]) =
      (map (fun r => (r, false)) rejected ++ [(stamp, true)], final) /\
    sleeps = repeat retry_interval (length rejected).
Proof.
  induction readings as [|now readings IH]; intros self stamp sleeps rest final.
  - simpl. split; [discriminate|].
    intros (rejected & H & _). destruct rejected; discriminate.
  - simpl. destruct (can_make_request now self) as [[|] self1] eqn:E.
    + split.
      * intros [= <- <- <- <-]. exists []. simpl. rewrite E. auto.
      * intros (rejected & Hr & Hc & Hs). destruct rejected as [|r rejected].
        -- simpl in *. injection Hr as <- <-. rewrite E in Hc.
           injection Hc as <-. subst sleeps. reflexivity.
        -- simpl in Hr, Hc. injection Hr as <- _. rewrite E in Hc.
           destruct (calls self1 (rejected ++ [stamp])). discriminate.
    + split.
      * destruct (wait_on readings self1) as [[[[st sl] re] fi]|] eqn:Ew; [|discriminate].
        intros [= <- <- <- <-].
        apply IH in Ew as (rejected & -> & Hc & ->).
        exists (now :: rejected). simpl. rewrite E, Hc. auto.
      * intros (rejected & Hr & Hc & Hs). destruct rejected as [|r rejected].
        -- simpl in *. injection Hr as <- <-. rewrite E in Hc. discriminate.
        -- simpl in Hr, Hc. injection Hr as <- ->. rewrite E in Hc.
           destruct (calls self1 (rejected ++ [stamp])) as [log fi] eqn:Ec.
           injection Hc as -> ->.
           assert (Hw : wait_on (rejected ++ stamp :: rest) self1 =
                        Some (stamp, repeat retry_interval (length rejected), rest, final)).
           { apply IH. exists rejected. auto. }
           rewrite Hw, Hs. reflexivity.
Qed.

(** It goes on for as long as its attempts are rejected. *)
Lemma wait_on_none (readings : list Z) : forall self,
  wait_on readings self = None <->
  fst (calls self readings) = map (fun r => (r, false)) readings.
Proof.
  induction readings as [|now readings IH]; intros self; simpl.
  - split; reflexivity.
  - destruct (can_make_request now self) as [[|] self1] eqn:E.
    + split; [discriminate|].
      destruct (calls self1 readings). simpl. discriminate.
    + specialize (IH self1).
      destruct (wait_on readings self1) as [[[[st sl] re] fi]|].
      * split; [discriminate|]. intros H.
        destruct (calls self1 readings) as [log fi'] eqn:Ec. simpl in *.
        injection H as H. apply IH in H. discriminate.
      * split; [|reflexivity]. intros _.
        destruct (calls self1 readings) as [log fi'] eqn:Ec. simpl in *.
        f_equal. apply IH. reflexivity.
Qed.

Lemma wait_on_saturated (readings : list Z) : forall self,
  requests_per_minute self <= 0 -> wait_on readings self = None.
Proof.
  induction readings as [|now readings IH]; intros self Hrpm; [reflexivity|].
  simpl. unfold can_make_request.
  set (q := popleft_stale (now - minute) (requests self)).
  rewrite geb_true by lia. rewrite IH by exact Hrpm. reflexivity.
Qed.

Lemma popleft_stale_all (minute_ago : Z) (q : list Z) :
  Forall (fun ts => ts < minute_ago) q -> popleft_stale minute_ago q = [].
Proof.
  induction 1 as [|r q Hr _ IH]; [reflexivity|]. simpl.
  replace (r <? minute_ago) with true by (symmetry; apply Z.ltb_lt; exact Hr).
  exact IH.
Qed.

Lemma wait_on_cons (now : Z) (rest : list Z) (self : t) :
  wait_on (now :: rest) self =
  if fst (can_make_request now self)
  then Some (now, [], rest, snd (can_make_request now self))
  else match wait_on rest (snd (can_make_request now self)) with
       | Some (stamp, sleeps, rest', final) =>
           Some (stamp, retry_interval :: sleeps, rest', final)
       | None => None
       end.
Proof. simpl. destruct (can_make_request now self) as [[|] self1]; reflexivity. Qed.

(** With room under each cap, the wait ends once the clock has left every
    recorded timestamp a minute behind, which [n] sleeps make it do. *)
Lemma wait_on_live (n : nat) : forall readings self,
  1 <= requests_per_minute self -> 1 <= burst_limit self ->
  (n < length readings)%nat -> advancing readings ->
  Forall (fun ts => ts < hd 0 readings - minute + Z.of_nat n * retry_interval)
         (requests self) ->
  exists stamp sleeps rest final,
    wait_on readings self = Some (stamp, sleeps, rest, final) /\
    (length sleeps <= n)%nat.
Proof.
  induction n as [|n IH]; intros readings self Hrpm Hbl Hlen Hadv Hold.
  - destruct readings as [|now readings]; [simpl in Hlen; lia|].
    simpl in Hold. simpl.
    assert (Hq : popleft_stale (now - minute) (requests self) = []).
    { apply popleft_stale_all. eapply List.Forall_impl; [|exact Hold].
      simpl. intros; lia. }
    unfold can_make_request. rewrite Hq. simpl.
    rewrite geb_false by lia. unfold recent_requests. simpl.
    rewrite geb_false by lia. do 4 eexists. split; [reflexivity|]. simpl. lia.
  - destruct readings as [|now readings]; [simpl in Hlen; lia|].
    destruct readings as [|next readings]; [simpl in Hlen; lia|].
    rewrite wait_on_cons.
    destruct (can_make_request now self) as [[|] self1] eqn:E; cbn [fst snd].
    + do 4 eexists. split; [reflexivity|]. simpl. lia.
    + apply can_make_request_rejected in E. subst self1.
      destruct Hadv as [Hstep Hadv].
      destruct (IH (next :: readings)
                  (mk (requests_per_minute self) (burst_limit self)
                      (popleft_stale (now - minute) (requests self))))
        as (stamp & sleeps & rest & final & Hw & Hs); try assumption.
      * simpl in Hlen |- *. lia.
      * simpl. apply popleft_stale_Forall.
        eapply List.Forall_impl; [|exact Hold]. intros ts Hts.
        cbn beta in Hts. cbn [hd] in Hts |- *. unfold retry_interval in *. lia.
      * rewrite Hw. do 4 eexists. split; [reflexivity|]. simpl. lia.
Qed.

(** What a sequence of waits reads is a sequence of calls, whose accepted
    timestamps are the permits; it ends with the last permit. *)
Lemma permits_on_calls (count : nat) : forall readings self stamps rest final,
  permits_on count readings self = Some (stamps, rest, final) ->
  exists used,
    readings = used ++ rest /\
    accepted (fst (calls self used)) = stamps /\
    snd (calls self used) = final /\
    length stamps = count /\
    (count <> 0%nat ->
     exists before now, used = before ++ [now] /\ last stamps = Some now).
Proof.
  induction count as [|count IH]; intros readings self stamps rest final H.
  - simpl in H. injection H as <- <- <-. exists []. simpl.
    repeat split; try reflexivity. congruence.
  - simpl in H.
    destruct (wait_on readings self) as [[[[stamp sleeps] rest1] self1]|] eqn:Ew;
      [|discriminate].
    destruct (permits_on count rest1 self1) as [[[stamps1 rest2] final1]|] eqn:Ep;
      [|discriminate].
    injection H as <- <- <-.
    apply wait_on_spec in Ew as (rejected & -> & Hc & _).
    destruct count as [|count].
    { simpl in Ep. injection Ep as <- <- <-.
      exists (rejected ++ [stamp]). rewrite Hc. simpl fst. simpl snd.
      split; [rewrite <- app_assoc; reflexivity|].
      split; [rewrite accepted_app, accepted_rejected; reflexivity|].
      repeat split. intros _. exists rejected, stamp. split; reflexivity. }
    apply IH in Ep as (used1 & -> & Hacc & Hfin & Hlen & Hlast).
    exists ((rejected ++ [stamp]) ++ used1).
    rewrite calls_app, Hc. simpl fst. simpl snd.
    split; [rewrite <- !app_assoc; reflexivity|].
    split; [rewrite accepted_app, accepted_app, accepted_rejected, Hacc; reflexivity|].
    split; [exact Hfin|]. split; [simpl; congruence|].
    intros _. destruct (Hlast ltac:(discriminate)) as (before & now & -> & Hl).
    exists ((rejected ++ [stamp]) ++ before), now.
    split; [rewrite <- !app_assoc; reflexivity|].
    destruct stamps1 as [|s stamps1]; [discriminate|]. exact Hl.
Qed.

(** The caps over the permits of a sequence of waits on a new limiter. *)
Lemma permits_on_caps (rpm burst : Z) (k : nat) (readings stamps rest : list Z)
    (final : t) (now t : Z) :
  permits_on (S k) readings (init rpm burst) = Some (stamps, rest, final) ->
  monotonic readings -> last stamps = Some now -> now <= t ->
  count (in_minute_window t) stamps <= rpm /\
  count (in_second_window t) stamps <= burst.
Proof.
  intros Hp Hmono Hlast Ht.
  apply permits_on_calls in Hp as (used & -> & Hacc & Hfin & Hlen & Hend).
  destruct (Hend ltac:(discriminate)) as (before & now' & -> & Hlast').
  assert (now' = now) as -> by congruence.
  apply monotonic_app in Hmono as (Hmono & _ & _).
  destruct (accepted_calls_caps (before ++ [now]) (init rpm burst)) as [Hrpm Hbl].
  { rewrite Hacc. destruct stamps; [discriminate|congruence]. }
  simpl in Hrpm, Hbl.
  set (c0 := hd now before).
  assert (Hm0 : monotonic (c0 :: before ++ [now])).
  { split; [|exact Hmono]. destruct before as [|b before]; simpl in *.
    - constructor; [subst c0; simpl; lia|constructor].
    - subst c0. simpl. constructor; [lia|]. tauto. }
  pose proof (caps_inv_calls before c0 (init rpm burst) [] now Hm0
                (caps_inv_init rpm burst c0 ltac:(lia) ltac:(lia))) as Hinv.
  cbv zeta in Hinv. rewrite app_nil_l, Hacc in Hinv.
  apply (caps_inv_windows now t) in Hinv; [|exact Ht].
  destruct (calls_config (before ++ [now]) (init rpm burst)) as [H1 H2].
  rewrite H1, H2 in Hinv. exact Hinv.
Qed.

(** [RateLimiter.wait_if_needed] on a clock of [Time] is this loop on the
    readings of that clock, which advance. *)
Lemma wait_if_needed_wait_on (fuel : nat) : forall self c,
  match wait_if_needed fuel self c, wait_on (readings_of fuel c) self with
  | Some (self', c'), Some (stamp, slept, _, final) =>
      final = self' /\ stamp = reading c' /\ sleeps c' = sleeps c ++ slept
  | None, None => True
  | _, _ => False
  end.
Proof.
  induction fuel as [|fuel IH]; intros self c; [exact Logic.I|].
  cbn [wait_if_needed readings_of]. rewrite wait_on_cons. unfold datetime_now.
  destruct (can_make_request (reading c) self) as [[|] self1]; cbn [fst snd].
  - rewrite app_nil_r. auto.
  - specialize (IH self1 (time_sleep retry_interval c)).
    destruct (wait_if_needed fuel self1 (time_sleep retry_interval c)) as [[self' c']|];
      destruct (wait_on (readings_of fuel (time_sleep retry_interval c)) self1)
        as [[[[stamp slept] rest] final]|]; try exact IH.
    destruct IH as (H1 & H2 & H3). split; [exact H1|]. split; [exact H2|].
    rewrite H3. simpl. rewrite <- app_assoc. reflexivity.
Qed.

Lemma readings_of_advancing (fuel : nat) : forall c, advancing (readings_of fuel c).
Proof.
  induction fuel as [|fuel IH]; intros c; [exact Logic.I|].
  cbn [readings_of advancing]. split; [|apply IH].
  destruct fuel as [|fuel]; [exact Logic.I|].
  cbn [readings_of]. simpl. lia.
Qed.

(** C9, as the code has it. [wait_if_needed] returns out of the first
    attempt that [can_make_request] accepts and out of nothing else: the
    permit is recorded at the back of the deque, and every attempt before it
    was rejected and followed by one sleep of 100ms. When the clock is never
    set back, the permits of any number of waits on a new limiter respect
    both caps, at the time of each return and at any later time; the code
    reads the wall clock, and does nothing about a clock that is set back.
    A caller that waits alone on a limiter with room for one request under
    each cap returns after at most [n] sleeps once [n] sleeps take the clock
    a minute past the recorded timestamps, each sleep moving it by 100ms at
    least: after at most 601 when no timestamp is of the future. There is
    no timeout: the loop goes on exactly as long as its attempts are
    rejected, and for ever on a limiter that has no room at all. *)
Theorem wait_if_needed_on_wall_clock :
  (forall readings self stamp slept rest final,
      wait_on readings self = Some (stamp, slept, rest, final) <->
      exists rejected,
        readings = rejected ++ stamp :: rest /\
        calls self (rejected ++ [stamp]) =
          (map (fun r => (r, false)) rejected ++ [(stamp, true)], final) /\
        slept = repeat retry_interval (length rejected)) /\
  (forall readings self stamp slept rest final,
      wait_on readings self = Some (stamp, slept, rest, final) ->
      last (requests final) = Some stamp) /\
  (forall rpm burst k readings stamps rest final now t,
      permits_on (S k) readings (init rpm burst) = Some (stamps, rest, final) ->
      monotonic readings -> last stamps = Some now -> now <= t ->
      count (in_minute_window t) stamps <= rpm /\
      count (in_second_window t) stamps <= burst) /\
  (forall (n : nat) readings self,
      1 <= requests_per_minute self -> 1 <= burst_limit self ->
      (n < length readings)%nat -> advancing readings ->
      Forall (fun ts => ts < hd 0 readings - minute + Z.of_nat n * retry_interval)
             (requests self) ->
      exists stamp slept rest final,
        wait_on readings self = Some (stamp, slept, rest, final) /\
        (length slept <= n)%nat) /\
  (forall readings self,
      1 <= requests_per_minute self -> 1 <= burst_limit self ->
      (601 < length readings)%nat -> advancing readings ->
      Forall (fun ts => ts <= hd 0 readings) (requests self) ->
      exists stamp slept rest final,
        wait_on readings self = Some (stamp, slept, rest, final) /\
        (length slept <= 601)%nat) /\
  (forall readings self,
      wait_on readings self = None <->
      fst (calls self readings) = map (fun r => (r, false)) readings) /\
  (forall readings self,
      requests_per_minute self <= 0 -> wait_on readings self = None) /\
  (forall fuel self c,
      advancing (readings_of fuel c) /\
      match wait_if_needed fuel self c, wait_on (readings_of fuel c) self with
      | Some (self', c'), Some (stamp, slept, _, final) =>
          final = self' /\ stamp = reading c' /\ sleeps c' = sleeps c ++ slept
      | None, None => True
      | _, _ => False
      end).
Proof.
  split; [|split; [|split; [|split; [|split; [|split; [|split]]]]]].
  - intros. apply wait_on_spec.
  - intros readings self stamp slept rest final H.
    apply wait_on_spec in H as (rejected & _ & Hc & _).
    rewrite calls_app in Hc. simpl in Hc.
    destruct (can_make_request stamp (snd (calls self rejected))) as [ok s1] eqn:E.
    injection Hc as Hlog <-.
    assert (ok = true) as ->.
    { apply (f_equal (@last _)) in Hlog. rewrite !last_snoc in Hlog. congruence. }
    apply can_make_request_accepted in E as (Hq & _). rewrite Hq. apply last_snoc.
  - intros. eapply permits_on_caps; eauto.
  - intros. apply wait_on_live; assumption.
  - intros readings self Hrpm Hbl Hlen Hadv Hpast.
    apply wait_on_live; try assumption.
    eapply List.Forall_impl; [|exact Hpast]. simpl. intros ts Hts.
    unfold minute, retry_interval. lia.
  - intros. apply wait_on_none.
  - intros. apply wait_on_saturated. assumption.
  - intros fuel self c. split; [apply readings_of_advancing|apply wait_if_needed_wait_on].
Qed.

(** The theorem along two waits on a new limiter with caps of 2 a minute
    and 1 a second, the clock read every 100ms: the second wait sleeps ten
    times and returns a second after the first. *)
Lemma wait_if_needed_on_wall_clock_witness :
  permits_on 2 (ticking one_evening 12) (init 2 1) =
    Some ([one_evening; one_evening + 1000000], [one_evening + 1100000],
          mk 2 1 [one_evening; one_evening + 1000000]) /\
  count (in_minute_window (one_evening + 1000000)) [one_evening; one_evening + 1000000] <= 2 /\
  count (in_second_window (one_evening + 1000000)) [one_evening; one_evening + 1000000] <= 1.
Proof.
  assert (Hrun : permits_on 2 (ticking one_evening 12) (init 2 1) =
                 Some ([one_evening; one_evening + 1000000], [one_evening + 1100000],
                       mk 2 1 [one_evening; one_evening + 1000000])).
  { vm_compute. reflexivity. }
  split; [exact Hrun|].
  apply (proj1 (proj2 (proj2 wait_if_needed_on_wall_clock))
           2 1 1%nat (ticking one_evening 12)
           [one_evening; one_evening + 1000000] [one_evening + 1100000]
           (mk 2 1 [one_evening; one_evening + 1000000])
           (one_evening + 1000000) (one_evening + 1000000) Hrun).
  - vm_compute. repeat (split || constructor); discriminate.
  - reflexivity.
  - lia.
Defined.

(** Against C9 as stated. The wall clock is set back by 61 seconds before
    the fourth wait: each of the four waits returns at its first attempt,
    and the fourth returns with three permits stamped in the 60 seconds
    that end at it, under a cap of 2 a minute. *)
Lemma wait_returns_over_the_cap_when_clock_is_set_back :
  permits_on 4 [one_evening; one_evening; one_evening + 61000000; one_evening]
             (init 2 10) =
    Some ([one_evening; one_evening; one_evening + 61000000; one_evening], [],
          mk 2 10 [one_evening + 61000000; one_evening]) /\
  count (in_minute_window one_evening)
        [one_evening; one_evening; one_evening + 61000000; one_evening] = 3 /\
  ~ count (in_minute_window one_evening)
          [one_evening; one_evening; one_evening + 61000000; one_evening]
    <= requests_per_minute (init 2 10).
Proof.
  split; [vm_compute; reflexivity|]. split; [reflexivity|].
  vm_compute. intros H. apply H. reflexivity.
Qed.

End WaitOnWallClock.
